(** * gutenberg_word_count (lib/compat/wordpress-6.2/formatting.php)

    A shallow embedding of the PHP function [gutenberg_word_count] and of the
    part of PHP it runs on: PHP values, the [preg_*] call boundary, and a
    model of the PCRE pattern language that covers the ten default patterns
    of the function.

    Further down: the hook usePasteStyles with its helpers (module
    [PasteStyles]) and the effect of useMultiSelection (module
    [MultiSelection]). *)

From Stdlib Require Import ZArith NArith Ascii String List Bool DecimalString.
From stdpp Require Import gmap strings list.

Set Warnings "-register-all".
Local Open Scope Z_scope.
Local Open Scope string_scope.

(** ** PHP values *)

Inductive zkey :=
| KInt (i : Z)
| KStr (s : string).

(** The values a setting or the [$type] argument can hold.  Floats and
    objects are left out: no path of the function tells them apart from the
    other non-string values. *)
Inductive zval :=
| ZNull
| ZBool (b : bool)
| ZInt (i : Z)
| ZStr (s : string)
| ZArr (a : list (zkey * zval)).

(** PHP's conversion to bool: [null], [false], [0], the strings [""] and
    ["0"] and the empty array are false. *)
Definition to_bool (v : zval) : bool :=
  match v with
  | ZNull => false
  | ZBool b => b
  | ZInt i => negb (i =? 0)%Z
  | ZStr s => negb (bool_decide (s = "") || bool_decide (s = "0"))
  | ZArr a => match a with [] => false | _ => true end
  end.

(** PHP's conversion to string. *)
Definition strval (v : zval) : string :=
  match v with
  | ZNull => ""
  | ZBool b => if b then "1" else ""
  | ZInt i => NilZero.string_of_int (Z.to_int i)
  | ZStr s => s
  | ZArr _ => "Array"
  end.

(** [$x === 'literal'] *)
Definition strict_eq_str (lit : string) (v : zval) : bool :=
  match v with
  | ZStr s => bool_decide (lit = s)
  | _ => false
  end.

(** [implode( $glue, $pieces )]: the values of the array in order. *)
Fixpoint join (glue : string) (pieces : list string) : string :=
  match pieces with
  | [] => ""
  | [p] => p
  | p :: ps => p +:+ glue +:+ join glue ps
  end.

Definition implode (glue : string) (a : list (zkey * zval)) : string :=
  join glue (map (λ kv, strval kv.2) a).

(** [$a[$k]] for reading: an undefined key reads as [null]. *)
Definition idx (a : gmap string zval) (k : string) : zval :=
  default ZNull (a !! k).

(** [isset( $a[$k] )]: the key exists and its value is not [null]. *)
Definition isset (a : gmap string zval) (k : string) : bool :=
  match a !! k with
  | Some ZNull | None => false
  | Some _ => true
  end.

Definition is_array (v : zval) : bool :=
  match v with ZArr _ => true | _ => false end.

(** [empty( $a[$k] )]: not set, or false as a bool. *)
Definition empty_at (a : gmap string zval) (k : string) : bool :=
  negb (to_bool (idx a k)).

(** [wp_parse_args( $args, $defaults )] on an array [$args] is
    [array_merge( $defaults, $args )]: for string keys the value of [$args]
    wins.  The settings are only ever read at string keys, so the array is a
    finite map on them. *)
Definition wp_parse_args (args defaults : gmap string zval) : gmap string zval :=
  args ∪ defaults.

(** ** The [preg_*] boundary *)

(** What the function needs from PHP's PCRE extension.  [preg_replace]
    returns the new subject, or [None] for PHP's [null] (the pattern did not
    compile, or matching failed).  [preg_match_all] returns what it stores in
    [$matches[0]], the list of full matches, or [None] when it fails before
    [$matches] is assigned. *)
Class Preg := {
  preg_replace : zval → string → string → option string;
  preg_match_all : zval → string → option (list string)
}.

(** A call of the engine, as the function issues it. *)
Inductive preg_call :=
| CallReplace (pattern : zval) (replacement subject : string)
| CallMatchAll (pattern : zval) (subject : string).

(** Computations that issue engine calls: the value, and the calls made in
    order. *)
Definition php (A : Type) : Type := A * list preg_call.

#[global] Instance php_ret : MRet php := λ A a, (a, []).
#[global] Instance php_bind : MBind php :=
  λ A B k m, let r := k m.1 in (r.1, (m.2 ++ r.2)%list).

Definition result {A} (m : php A) : A := m.1.
Definition calls {A} (m : php A) : list preg_call := m.2.

(** [$text] after a failed [preg_replace] is [null]; passed on as a subject
    PHP converts it to the empty string. *)
Definition subject_of (text : option string) : string := default "" text.

Section WordCount.
Context `{Preg}.

Definition replace (pattern : zval) (replacement : string)
    (text : option string) : php (option string) :=
  (preg_replace pattern replacement (subject_of text),
   [CallReplace pattern replacement (subject_of text)]).

Definition match_all (pattern : zval) (text : option string)
    : php (option (list string)) :=
  (preg_match_all pattern (subject_of text),
   [CallMatchAll pattern (subject_of text)]).
End WordCount.

Definition LF : string := String (ascii_of_nat 10) "".
Definition control (n : nat) : string := String (ascii_of_nat n) "".

(** The ["\f\n\r\t\v"] of the double-quoted default, after PHP has
    processed the escapes. *)
Definition FNRTV : string :=
  control 12 +:+ control 10 +:+ control 13 +:+ control 9 +:+ control 11.

Definition defaults : gmap string zval :=
  list_to_map
    [ ("html_regexp", ZStr "/<\/?[a-z][^>]*?>/i");
      ("html_comment_regexp", ZStr "/<!--[\s\S]*?-->/");
      ("space_regexp", ZStr "/&nbsp;|&#160;/i");
      ("html_entity_regexp", ZStr "/&\S+?;/");
      ("connector_regexp", ZStr "/--|\x{2014}/u");
      ("remove_regexp",
       ZStr "/[\x{0021}-\x{0040}\x{005B}-\x{0060}\x{007B}-\x{007E}\x{0080}-\x{00BF}\x{00D7}\x{00F7}\x{2000}-\x{2BFF}\x{2E00}-\x{2E7F}]/u");
      ("astral_regexp", ZStr "/[\x{D800}-\x{DBFF}][\x{DC00}-\x{DFFF}]/u");
      ("words_regexp", ZStr "/\S\s+/");
      ("characters_excluding_spaces_regexp", ZStr "/\S/");
      ("characters_including_spaces_regexp",
       ZStr ("/[^" +:+ FNRTV +:+ "\x{00AD}\x{2028}\x{2029}]/u")) ].

(** The pattern line 64 builds from the shortcode names. *)
Definition shortcodes_pattern (shortcodes : list (zkey * zval)) : string :=
  "\[\/?(?:" +:+ implode "|" shortcodes +:+ ")[^\]]*?\]".

(** Lines 62-65. *)
Definition add_shortcodes_regexp (settings : gmap string zval)
    : gmap string zval :=
  if isset settings "shortcodes" && is_array (idx settings "shortcodes") then
    match idx settings "shortcodes" with
    | ZArr shortcodes =>
        <["shortcodes_regexp" := ZStr (shortcodes_pattern shortcodes)]> settings
    | _ => settings
    end
  else settings.

(** Lines 60-65: the settings the pipeline runs with. *)
Definition resolve_settings (settings : gmap string zval) : gmap string zval :=
  add_shortcodes_regexp (wp_parse_args settings defaults).

(** Lines 67-70. *)
Definition sanitize_type (type : zval) : zval :=
  if negb (strict_eq_str "characters_excluding_spaces" type)
     && negb (strict_eq_str "characters_including_spaces" type)
  then ZStr "words"
  else type.

Section Pipeline.
Context `{Preg}.

(** Lines 80-83. *)
Definition remove_shortcodes (settings : gmap string zval)
    (text : option string) : php (option string) :=
  if negb (empty_at settings "shortcodes_regexp") then
    replace (idx settings "shortcodes_regexp") LF text
  else mret text.

(** Lines 72-105: the passes over [$text]. *)
Definition normalize (settings : gmap string zval) (type : zval)
    (text : string) : php (option string) :=
  let text := Some (text +:+ LF) in
  text ← replace (idx settings "html_regexp") LF text;
  text ← replace (idx settings "html_comment_regexp") "" text;
  text ← remove_shortcodes settings text;
  text ← replace (idx settings "space_regexp") " " text;
  if strict_eq_str "words" type then
    text ← replace (idx settings "html_entity_regexp") "" text;
    text ← replace (idx settings "connector_regexp") " " text;
    replace (idx settings "remove_regexp") "" text
  else
    text ← replace (idx settings "html_entity_regexp") "a" text;
    replace (idx settings "astral_regexp") "a" text.

Definition gutenberg_word_count (text : string) (type : zval)
    (settings : gmap string zval) : php Z :=
  let count := 0%Z in
  if negb (to_bool (ZStr text)) then mret count
  else
    let settings := resolve_settings settings in
    let type := sanitize_type type in
    text ← normalize settings type text;
    matches ← match_all (idx settings (strval type +:+ "_regexp")) text;
    match matches with
    | Some full => mret (Z.of_nat (length full))
    | None => mret count
    end.
End Pipeline.

(** ** PCRE, as far as the default patterns use it

    PHP hands a pattern string to PCRE in two steps: it cuts the string into
    delimiter, pattern and modifiers (and refuses a string it cannot cut),
    and PCRE compiles the pattern (and refuses what it cannot compile).
    Either refusal raises a PHP warning and makes the [preg_*] call fail.

    This model covers: literals, escaped punctuation, [\s], [\S], [\x{h..}],
    character classes with ranges, groups, alternation, the quantifiers
    [*], [+], [?] and their lazy forms, and the modifiers [i] and [u].
    A pattern that uses anything else gets the outcome [Beyond]. *)

Inductive warning :=
| EmptyRegex            (* Empty regular expression *)
| BadDelimiter          (* Delimiter must not be alphanumeric, backslash, or NUL *)
| NoEndingDelimiter     (* No ending delimiter found *)
| UnknownModifier       (* Unknown modifier *)
| BadUtf8               (* Compilation failed: UTF-8 error *)
| TrailingBackslash     (* Compilation failed: \ at end of pattern *)
| CodePointTooLarge     (* Compilation failed: character code point value in \x{} is too large *)
| DisallowedCodePoint   (* Compilation failed: disallowed Unicode code point (>= 0xd800 && <= 0xdfff) *)
| MissingBracket        (* Compilation failed: missing terminating ] for character class *)
| RangeOutOfOrder       (* Compilation failed: range out of order in character class *)
| MissingParen          (* Compilation failed: missing closing parenthesis *)
| UnmatchedParen        (* Compilation failed: unmatched closing parenthesis *)
| NothingToRepeat.      (* Compilation failed: quantifier does not follow a repeatable item *)

Inductive outcome (A : Type) :=
| Ok (a : A)
| Warn (w : warning)
| Beyond.
Arguments Ok {A} a.
Arguments Warn {A} w.
Arguments Beyond {A}.

#[global] Instance outcome_ret : MRet outcome := λ A a, Ok a.
#[global] Instance outcome_bind : MBind outcome :=
  λ A B k m, match m with Ok a => k a | Warn w => Warn w | Beyond => Beyond end.
#[global] Instance outcome_fmap : FMap outcome :=
  λ A B f m, match m with Ok a => Ok (f a) | Warn w => Warn w | Beyond => Beyond end.

Local Open Scope N_scope.

(** *** Code units *)

Definition chr (a : ascii) : N := N_of_ascii a.
Definition is_char (a : ascii) (c : N) : bool := c =? chr a.
Definition between (lo hi c : N) : bool := (lo <=? c) && (c <=? hi).

Definition bytes_of (s : string) : list N := map N_of_ascii (list_ascii_of_string s).
Definition string_of (bs : list N) : string := string_of_list_ascii (map ascii_of_N bs).

Definition is_digit (c : N) : bool := between (chr "0") (chr "9") c.
Definition is_upper (c : N) : bool := between (chr "A") (chr "Z") c.
Definition is_lower (c : N) : bool := between (chr "a") (chr "z") c.
Definition is_alnum (c : N) : bool := is_digit c || is_upper c || is_lower c.

(** C's [isspace] in the C locale. *)
Definition is_space_c (c : N) : bool := between 9 13 c || (c =? 32).

(** [\s] under [u], which makes PHP set PCRE's UCP option as well. *)
Definition is_space_ucp (c : N) : bool :=
  is_space_c c || (c =? 133) || (c =? 160) || (c =? 5760) || (c =? 6158)
  || between 8192 8202 c || (c =? 8232) || (c =? 8233) || (c =? 8239)
  || (c =? 8287) || (c =? 12288).

Definition other_case (c : N) : N :=
  if is_upper c then c + 32 else if is_lower c then c - 32 else c.

Definition is_surrogate (c : N) : bool := between 55296 57343 c.

(** *** UTF-8 *)

Definition cont (b : N) : bool := between 128 191 b.

Fixpoint utf8_decode (bs : list N) : option (list N) :=
  match bs with
  | [] => Some []
  | b0 :: t0 =>
      if b0 <? 128 then cons b0 <$> utf8_decode t0
      else if between 194 223 b0 then
        match t0 with
        | b1 :: t1 =>
            if cont b1
            then cons ((b0 - 192) * 64 + (b1 - 128)) <$> utf8_decode t1
            else None
        | _ => None
        end
      else if between 224 239 b0 then
        match t0 with
        | b1 :: b2 :: t2 =>
            let c := (b0 - 224) * 4096 + (b1 - 128) * 64 + (b2 - 128) in
            if cont b1 && cont b2 && (2048 <=? c) && negb (is_surrogate c)
            then cons c <$> utf8_decode t2
            else None
        | _ => None
        end
      else if between 240 244 b0 then
        match t0 with
        | b1 :: b2 :: b3 :: t3 =>
            let c := (b0 - 240) * 262144 + (b1 - 128) * 4096
                     + (b2 - 128) * 64 + (b3 - 128) in
            if cont b1 && cont b2 && cont b3 && between 65536 1114111 c
            then cons c <$> utf8_decode t3
            else None
        | _ => None
        end
      else None
  end.

Definition utf8_encode1 (c : N) : list N :=
  if c <? 128 then [c]
  else if c <? 2048 then [192 + c / 64; 128 + c mod 64]
  else if c <? 65536 then
    [224 + c / 4096; 128 + (c / 64) mod 64; 128 + c mod 64]
  else
    [240 + c / 262144; 128 + (c / 4096) mod 64; 128 + (c / 64) mod 64;
     128 + c mod 64].

Definition utf8_encode (cs : list N) : list N := flat_map utf8_encode1 cs.

(** *** Patterns *)

Inductive citem :=
| IRange (lo hi : N)
| ISpace
| INotSpace.

Inductive quant := QStar | QPlus | QOpt.

Inductive re :=
| REps
| RChr (c : N)
| RSet (neg : bool) (items : list citem)
| RSeq (r1 r2 : re)
| RAlt (r1 r2 : re)
| RRep (q : quant) (greedy : bool) (r : re).

Record modifiers := { caseless : bool; utf : bool }.

(** *** Cutting the pattern string (PHP's pcre_get_compiled_regex_cache) *)

Fixpoint skip_space (s : list N) : list N :=
  match s with
  | c :: t => if is_space_c c then skip_space t else s
  | [] => []
  end.

(** The text up to the ending delimiter, and what follows it.  A backslash
    steps over the character after it. *)
Fixpoint find_end (delimiter : N) (s : list N) : option (list N * list N) :=
  match s with
  | [] => None
  | c :: t =>
      if is_char "\" c then
        match t with
        | [] => None
        | d :: t' => (λ p : list N * list N, (c :: d :: p.1, p.2)) <$> find_end delimiter t'
        end
      else if c =? delimiter then Some ([], t)
      else (λ p : list N * list N, (c :: p.1, p.2)) <$> find_end delimiter t
  end.

Fixpoint parse_modifiers (m : modifiers) (s : list N) : outcome modifiers :=
  match s with
  | [] => Ok m
  | c :: t =>
      if is_char "i" c then parse_modifiers {| caseless := true; utf := utf m |} t
      else if is_char "u" c then parse_modifiers {| caseless := caseless m; utf := true |} t
      else if is_char " " c || (c =? 10) || (c =? 13) then parse_modifiers m t
      else if existsb (λ a, is_char a c) ["m"; "s"; "x"; "A"; "D"; "S"; "U"; "X"; "J"; "n"; "e"]%char
      then Beyond
      else Warn UnknownModifier
  end.

(** The delimiter is the first character after leading whitespace; PHP
    refuses a letter, a digit, a backslash or NUL in that place.  The
    bracket-style delimiters are not modelled. *)
Definition cut (pattern : string) : outcome (list N * modifiers) :=
  match skip_space (bytes_of pattern) with
  | [] => Warn EmptyRegex
  | delimiter :: t =>
      if is_alnum delimiter || is_char "\" delimiter || (delimiter =? 0)
      then Warn BadDelimiter
      else if existsb (λ a, is_char a delimiter) ["("; "["; "{"; "<"]%char
      then Beyond
      else
        match find_end delimiter t with
        | None => Warn NoEndingDelimiter
        | Some (body, mods) =>
            m ← parse_modifiers {| caseless := false; utf := false |} mods;
            Ok (body, m)
        end
  end.

(** *** Compiling the pattern *)

Definition hex_value (c : N) : option N :=
  if is_digit c then Some (c - chr "0")
  else if between (chr "a") (chr "f") c then Some (c - chr "a" + 10)
  else if between (chr "A") (chr "F") c then Some (c - chr "A" + 10)
  else None.

(** The number a run of hex digits writes, how many digits it has, and the
    text after it. *)
Fixpoint read_hex (acc : N) (digits : nat) (s : list N) : N * nat * list N :=
  match s with
  | c :: t =>
      match hex_value c with
      | Some d => read_hex (acc * 16 + d) (S digits) t
      | None => (acc, digits, s)
      end
  | [] => (acc, digits, s)
  end.

Inductive escape :=
| EChr (c : N)
| ESpace
| ENotSpace.

(** The value of a [\x{h..}] escape.  Under [u] a value in the surrogate
    range D800-DFFF is refused (PCRE: characters whose code points are in
    the surrogate range are not allowed in UTF mode; PHP does not set the
    option that lifts the check), as is one above 10FFFF; without [u] the
    value must fit a byte. *)
Definition check_code_point (m : modifiers) (c : N) : outcome N :=
  if utf m then
    if 1114111 <? c then Warn CodePointTooLarge
    else if is_surrogate c then Warn DisallowedCodePoint
    else Ok c
  else if 255 <? c then Warn CodePointTooLarge
  else Ok c.

(** What stands after a backslash. *)
Definition parse_escape (m : modifiers) (s : list N) : outcome (escape * list N) :=
  match s with
  | [] => Warn TrailingBackslash
  | c :: t =>
      if is_char "s" c then Ok (ESpace, t)
      else if is_char "S" c then Ok (ENotSpace, t)
      else if is_char "x" c then
        match t with
        | b :: t' =>
            if is_char "{" b then
              match read_hex 0 0 t' with
              | (v, S _, e :: t'') =>
                  if is_char "}" e
                  then v' ← check_code_point m v; Ok (EChr v', t'')
                  else Beyond
              | _ => Beyond
              end
            else Beyond
        | [] => Beyond
        end
      else if is_alnum c then Beyond
      else Ok (EChr c, t)
  end.

(** One member of a character class: a character, [\s] or [\S]. *)
Definition parse_member (m : modifiers) (s : list N) : outcome (escape * list N) :=
  match s with
  | [] => Warn MissingBracket
  | c :: t =>
      if is_char "\" c then parse_escape m t
      else if is_char "[" c then
        match t with
        | d :: _ =>
            if is_char ":" d || is_char "." d || is_char "=" d then Beyond
            else Ok (EChr c, t)
        | [] => Ok (EChr c, t)
        end
      else Ok (EChr c, t)
  end.

Definition item_of (e : escape) : citem :=
  match e with
  | EChr c => IRange c c
  | ESpace => ISpace
  | ENotSpace => INotSpace
  end.

(** The members of a class up to its closing bracket.  A closing bracket
    that comes first is a member; a hyphen before the closing bracket is a
    member. *)
Fixpoint parse_class (m : modifiers) (fuel : nat) (first : bool) (s : list N)
    : outcome (list citem * list N) :=
  match fuel with
  | O => Beyond
  | S n =>
      match s with
      | [] => Warn MissingBracket
      | c :: t =>
          if is_char "]" c && negb first then Ok ([], t)
          else
            '(lo, t1) ← parse_member m s;
            match t1 with
            | d :: e :: _ =>
                if is_char "-" d && negb (is_char "]" e) then
                  '(hi, t2) ← parse_member m (tl t1);
                  match lo, hi with
                  | EChr l, EChr h =>
                      if h <? l then Warn RangeOutOfOrder
                      else
                        '(items, t3) ← parse_class m n false t2;
                        Ok (IRange l h :: items, t3)
                  | _, _ => Beyond
                  end
                else
                  '(items, t3) ← parse_class m n false t1;
                  Ok (item_of lo :: items, t3)
            | _ =>
                '(items, t3) ← parse_class m n false t1;
                Ok (item_of lo :: items, t3)
            end
      end
  end.

Definition is_quantifier (c : N) : bool :=
  is_char "*" c || is_char "+" c || is_char "?" c || is_char "{" c.

(** The quantifier after an item, if any. *)
Definition parse_quantifier (r : re) (s : list N) : outcome (re * list N) :=
  let lazy (q : quant) (t : list N) : outcome (re * list N) :=
    match t with
    | c :: t' =>
        if is_char "?" c then
          match t' with
          | d :: _ => if is_quantifier d then Beyond else Ok (RRep q false r, t')
          | [] => Ok (RRep q false r, t')
          end
        else if is_quantifier c then Beyond
        else Ok (RRep q true r, t)
    | [] => Ok (RRep q true r, t)
    end in
  match s with
  | c :: t =>
      if is_char "*" c then lazy QStar t
      else if is_char "+" c then lazy QPlus t
      else if is_char "?" c then lazy QOpt t
      else if is_char "{" c then Beyond
      else Ok (r, s)
  | [] => Ok (r, s)
  end.

Fixpoint parse_alt (m : modifiers) (fuel : nat) (s : list N) : outcome (re * list N) :=
  match fuel with
  | O => Beyond
  | S n =>
      '(r1, t) ← parse_seq m n s;
      match t with
      | c :: t' =>
          if is_char "|" c
          then '(r2, t'') ← parse_alt m n t'; Ok (RAlt r1 r2, t'')
          else Ok (r1, t)
      | [] => Ok (r1, t)
      end
  end
with parse_seq (m : modifiers) (fuel : nat) (s : list N) : outcome (re * list N) :=
  match fuel with
  | O => Beyond
  | S n =>
      match s with
      | [] => Ok (REps, s)
      | c :: _ =>
          if is_char "|" c || is_char ")" c then Ok (REps, s)
          else
            '(a, t1) ← parse_atom m n s;
            '(q, t2) ← parse_quantifier a t1;
            '(rest, t3) ← parse_seq m n t2;
            Ok (RSeq q rest, t3)
      end
  end
with parse_atom (m : modifiers) (fuel : nat) (s : list N) : outcome (re * list N) :=
  match fuel with
  | O => Beyond
  | S n =>
      let group (t : list N) : outcome (re * list N) :=
        '(r, t1) ← parse_alt m n t;
        match t1 with
        | c :: t2 => if is_char ")" c then Ok (r, t2) else Warn MissingParen
        | [] => Warn MissingParen
        end in
      match s with
      | [] => Beyond
      | c :: t =>
          if is_char "(" c then
            match t with
            | d :: t' =>
                if is_char "?" d then
                  match t' with
                  | e :: t'' => if is_char ":" e then group t'' else Beyond
                  | [] => Beyond
                  end
                else if is_char "*" d then Beyond
                else group t
            | [] => Warn MissingParen
            end
          else if is_char "[" c then
            match t with
            | d :: t' =>
                if is_char "^" d
                then '(items, t1) ← parse_class m (S (length t)) true t';
                     Ok (RSet true items, t1)
                else '(items, t1) ← parse_class m (S (length t)) true t;
                     Ok (RSet false items, t1)
            | [] => Warn MissingBracket
            end
          else if is_char "\" c then
            '(e, t1) ← parse_escape m t;
            Ok (match e with
                | EChr x => RChr x
                | ESpace => RSet false [ISpace]
                | ENotSpace => RSet false [INotSpace]
                end, t1)
          else if is_char "*" c || is_char "+" c || is_char "?" c
          then Warn NothingToRepeat
          else if is_char "^" c || is_char "$" c || is_char "." c || is_char "{" c
          then Beyond
          else Ok (RChr c, t)
      end
  end.

(** The pattern as PCRE reads it: bytes, or code points under [u]. *)
Definition pattern_units (m : modifiers) (body : list N) : outcome (list N) :=
  if utf m then
    match utf8_decode body with
    | Some cs => Ok cs
    | None => Warn BadUtf8
    end
  else Ok body.

Definition compile (pattern : string) : outcome (re * modifiers) :=
  '(body, m) ← cut pattern;
  if caseless m && utf m then Beyond
  else
    units ← pattern_units m body;
    '(r, rest) ← parse_alt m (4 * length units + 8) units;
    match rest with
    | [] => Ok (r, m)
    | _ => Warn UnmatchedParen
    end.

(** *** Matching *)

Section Matching.
Variable m : modifiers.

Definition is_space (c : N) : bool :=
  if utf m then is_space_ucp c else is_space_c c.

Definition item_has (c : N) (i : citem) : bool :=
  match i with
  | IRange lo hi => between lo hi c
  | ISpace => is_space c
  | INotSpace => negb (is_space c)
  end.

Definition set_has (items : list citem) (c : N) : bool :=
  existsb (item_has c) items
  || (caseless m && existsb (item_has (other_case c)) items).

Definition chr_eq (c x : N) : bool :=
  (x =? c) || (caseless m && (other_case x =? c)).

(** Repetition of [step]: the first iterations are tried first when
    greedy, last when lazy.  An iteration that consumes nothing ends the
    repetition. *)
Fixpoint iterate (step : list N → list (list N)) (greedy : bool)
    (fuel : nat) (s : list N) : list (list N) :=
  match fuel with
  | O => [s]
  | S n =>
      let more :=
        flat_map
          (λ s', if (length s' <? length s)%nat
                 then iterate step greedy n s' else [s'])
          (step s) in
      if greedy then more ++ [s] else s :: more
  end.

(** The ways [r] matches at the head of [s], each as the text left after
    the match, in the order PCRE tries them. *)
Fixpoint rmatch (r : re) (s : list N) : list (list N) :=
  match r with
  | REps => [s]
  | RChr c =>
      match s with
      | x :: t => if chr_eq c x then [t] else []
      | [] => []
      end
  | RSet neg items =>
      match s with
      | x :: t => if xorb neg (set_has items x) then [t] else []
      | [] => []
      end
  | RSeq r1 r2 => flat_map (rmatch r2) (rmatch r1 s)
  | RAlt r1 r2 => rmatch r1 s ++ rmatch r2 s
  | RRep QOpt greedy r' =>
      if greedy then rmatch r' s ++ [s] else s :: rmatch r' s
  | RRep QStar greedy r' => iterate (rmatch r') greedy (S (length s)) s
  | RRep QPlus greedy r' =>
      flat_map (λ s', iterate (rmatch r') greedy (S (length s')) s')
               (rmatch r' s)
  end.

(** The match PCRE reports at the head of [s]: the first way, or under
    [notempty] the first way that consumes something. *)
Definition match_here (r : re) (notempty : bool) (s : list N)
    : option (list N) :=
  head (filter (λ s', negb notempty || (length s' <? length s)%nat)
               (rmatch r s)).

(** [preg_replace]'s loop: after an empty match the same position is
    tried again for a non-empty match, and if there is none one unit is
    copied. *)
Fixpoint replace_loop (r : re) (replacement : list N) (fuel : nat)
    (notempty : bool) (s : list N) : list N :=
  match fuel with
  | O => s
  | S n =>
      match match_here r notempty s with
      | Some rest =>
          replacement ++
          (if (length rest <? length s)%nat
           then replace_loop r replacement n false rest
           else replace_loop r replacement n true s)
      | None =>
          match s with
          | [] => []
          | x :: t => x :: replace_loop r replacement n false t
          end
      end
  end.

(** [preg_match_all]'s loop: the matched texts in order. *)
Fixpoint match_loop (r : re) (fuel : nat) (notempty : bool) (s : list N)
    : list (list N) :=
  match fuel with
  | O => []
  | S n =>
      match match_here r notempty s with
      | Some rest =>
          take (length s - length rest)%nat s ::
          (if (length rest <? length s)%nat
           then match_loop r n false rest
           else match_loop r n true s)
      | None =>
          match s with
          | [] => []
          | _ :: t => match_loop r n false t
          end
      end
  end.

(** The subject as PCRE reads it under these modifiers, and back. *)
Definition subject_units (subject : string) : option (list N) :=
  if utf m then utf8_decode (bytes_of subject) else Some (bytes_of subject).

Definition units_string (units : list N) : string :=
  string_of (if utf m then utf8_encode units else units).
End Matching.

(** A replacement text with [$] or a backslash can refer to groups. *)
Definition plain_replacement (replacement : string) : bool :=
  forallb (λ c, negb (is_char "$" c || is_char "\" c)) (bytes_of replacement).

(** A pattern argument that is one pattern string.  An array of patterns is
    not modelled. *)
Definition pattern_string (pattern : zval) : option string :=
  match pattern with
  | ZArr _ => None
  | _ => Some (strval pattern)
  end.

(** [preg_replace] and [preg_match_all] on this model.  A refused pattern
    and a subject that is not UTF-8 under [u] make the call fail, as in
    PHP.  What the model does not cover ([Beyond], an array of patterns, a
    replacement that may refer to groups or is not UTF-8 under [u]) fails
    here as well; the properties below that run this engine run it on the
    patterns they show. *)
Definition pcre_replace (pattern : zval) (replacement subject : string)
    : option string :=
  p ← pattern_string pattern;
  match compile p with
  | Ok (r, m) =>
      if plain_replacement replacement then
        s ← subject_units m subject;
        rep ← subject_units m replacement;
        Some (units_string m (replace_loop m r rep (2 * length s + 2) false s))
      else None
  | _ => None
  end.

Definition pcre_match_all (pattern : zval) (subject : string)
    : option (list string) :=
  p ← pattern_string pattern;
  match compile p with
  | Ok (r, m) =>
      s ← subject_units m subject;
      Some (units_string m <$> match_loop m r (2 * length s + 2) false s)
  | _ => None
  end.

#[global] Instance pcre : Preg :=
  {| preg_replace := pcre_replace; preg_match_all := pcre_match_all |}.

Local Close Scope N_scope.

Definition words : zval := ZStr "words".
Definition characters_excluding_spaces : zval := ZStr "characters_excluding_spaces".
Definition characters_including_spaces : zval := ZStr "characters_including_spaces".


(** * usePasteStyles (src/unnamed/part_001)

    The hook that pastes the styles of copied blocks onto target blocks.
    The block registry, the block parser and the clipboard are outside the
    file: they are taken as they are used, [getBlockType] and [parse] as
    functions, the clipboard as what reading it gives. *)

Module PasteStyles.

(** Attribute values.  The code only copies them. *)
Inductive jsval :=
| JUndefined
| JNull
| JBool (b : bool)
| JNum (n : Z)
| JStr (s : string)
| JArr (items : list jsval)
| JObj (fields : list (string * jsval)).

(** An entry of [blockType.attributes]: its [__experimentalRole] and its
    [default], each [JUndefined] when the entry has none. *)
Record attribute_type := {
  role : jsval;
  default_value : jsval
}.

(** A registered block type: the title and [Object.entries] of its
    attributes. *)
Record block_type := {
  title : string;
  type_attributes : list (string * attribute_type)
}.

Inductive block := Block {
  clientId : string;
  name : string;
  attributes : gmap string jsval;
  innerBlocks : list block
}.

(** What the callback does to the outside: the dispatched actions. *)
Inductive effect :=
| UpdateBlockAttributes (clientId : string) (attributes : gmap string jsval)
| CreateErrorNotice (message : string)
| CreateWarningNotice (message : string)
| CreateSuccessNotice (format : string) (argument : jsval).

(** How a piece of code ends: with a value, or by throwing. *)
Inductive completion (A : Type) :=
| Normal (a : A)
| Throw.
Arguments Normal {A} a.
Arguments Throw {A}.

(** Code with effects: how it ends and what it did until then. *)
Definition js (A : Type) : Type := completion A * list effect.

Definition ret {A} (a : A) : js A := (Normal a, []).
Definition lift {A} (c : completion A) : js A := (c, []).
Definition emit (e : effect) : js unit := (Normal tt, [e]).
Definition bind {A B} (m : js A) (k : A → js B) : js B :=
  match m.1 with
  | Normal a => let r := k a in (r.1, (m.2 ++ r.2)%list)
  | Throw => (Throw, m.2)
  end.

Notation "'let*' x := m 'in' k" := (bind m (λ x, k))
  (at level 10, x name, m at level 100, k at level 200, only parsing).
Notation "m ;; k" := (bind m (λ _, k))
  (at level 100, k at level 200, right associativity, only parsing).

Definition effects {A} (m : js A) : list effect := m.2.
Definition outcome_of {A} (m : js A) : completion A := m.1.

(** [attributeType.__experimentalRole !== 'content'] *)
Definition is_content (r : jsval) : bool :=
  match r with
  | JStr s => bool_decide (s = "content")
  | _ => false
  end.

(** What the clipboard gives line 112-122. *)
Inductive clipboard :=
| NoClipboard             (* window.navigator.clipboard is missing *)
| ReadFails               (* readText() rejects or throws *)
| ReadText (html : string).

Section Editor.
(** [getBlockType]: the registered type of a name, if any. *)
Variable getBlockType : string → option block_type.
(** [parse]: the blocks of a text, or [Throw]; the flag says whether the
    two [__unstableSkip...] options are given. *)
Variable parse : string → bool → completion (list block).

(** Lines 55-60. *)
Definition style_value (b : block) (attribute : string)
    (attributeType : attribute_type) : jsval :=
  match attributes b !! attribute with
  | Some v => v
  | None => default_value attributeType
  end.

(** [object[ key ] = v] on an object made by an object literal, as far
    as its own properties go.  The key [__proto__] is the accessor that
    Object.prototype provides: assigning to it creates no own property.
    Every other key becomes an own property. *)
Definition assign (key : string) (v : jsval) (object : gmap string jsval)
    : gmap string jsval :=
  if bool_decide (key = "__proto__") then object else <[key := v]> object.

(** Lines 49-62: one turn of the loop over the entries. *)
Definition add_style (b : block) (attrs : gmap string jsval)
    (entry : string * attribute_type) : gmap string jsval :=
  if negb (is_content (role entry.2))
  then assign entry.1 (style_value b entry.1 entry.2) attrs
  else attrs.

(** Lines 46-64: the own properties of the object returned.  Reading
    [.attributes] of an unregistered type throws. *)
Definition getStyleAttributes (b : block) : completion (gmap string jsval) :=
  match getBlockType (name b) with
  | Some blockType => Normal (foldl (add_style b) ∅ (type_attributes blockType))
  | None => Throw
  end.

(** Lines 83-92: the body of the loop for one index. *)
Fixpoint updateBlockPair (target source : block) {struct target} : js unit :=
  let* attrs := lift (getStyleAttributes source) in
  emit (UpdateBlockAttributes (clientId target) attrs) ;;
  (fix loop (targetBlocks sourceBlocks : list block) {struct targetBlocks}
     : js unit :=
     match targetBlocks, sourceBlocks with
     | t :: ts, s :: ss => updateBlockPair t s ;; loop ts ss
     | _, _ => ret tt
     end) (innerBlocks target) (innerBlocks source).

(** Lines 73-94: the indices below the shorter length, in order. *)
Fixpoint recursivelyUpdateBlockAttributes (targetBlocks sourceBlocks : list block)
    : js unit :=
  match targetBlocks, sourceBlocks with
  | t :: ts, s :: ss =>
      updateBlockPair t s ;; recursivelyUpdateBlockAttributes ts ss
  | _, _ => ret tt
  end.

(** Lines 21-37. *)
Definition looksLikeBlocks (text : string) : bool :=
  match parse text true with
  | Normal [b] => negb (bool_decide (name b = "core/freeform"))
  | Normal _ => true
  | Throw => false
  end.

(** Line 167: [getBlockType( name )?.title]. *)
Definition title_of (b : block) : jsval :=
  match getBlockType (name b) with
  | Some blockType => JStr (title blockType)
  | None => JUndefined
  end.

(** Lines 108-186: the callback [usePasteStyles] returns. *)
Definition pasteStyles (from : clipboard) (targetBlocks : list block) : js unit :=
  match from with
  | NoClipboard =>
      emit (CreateErrorNotice
              "Reading from the clipboard is only available in secure contexts (HTTPS) in supporting browsers.")
  | ReadFails =>
      emit (CreateErrorNotice "Permission denied: Unable to read from clipboard.")
  | ReadText html =>
      if bool_decide (html = "") || negb (looksLikeBlocks html) then
        emit (CreateWarningNotice "The copied data doesn't appear to be blocks.")
      else
        let* copiedBlocks := lift (parse html false) in
        match copiedBlocks with
        | [copied] =>
            recursivelyUpdateBlockAttributes targetBlocks
              (map (λ _, copied) targetBlocks)
        | _ => recursivelyUpdateBlockAttributes targetBlocks copiedBlocks
        end ;;
        match targetBlocks with
        | [target] =>
            emit (CreateSuccessNotice "Pasted styles to %s." (title_of target))
        | _ =>
            emit (CreateSuccessNotice "Pasted styles to %d blocks."
                    (JNum (Z.of_nat (length targetBlocks))))
        end
  end.
End Editor.

(** The client ids of a block and the blocks inside it, in document
    order. *)
Fixpoint block_ids (b : block) : list string :=
  clientId b :: flat_map block_ids (innerBlocks b).

Definition forest_ids (blocks : list block) : list string :=
  flat_map block_ids blocks.

(** A block and the blocks inside it. *)
Fixpoint subblocks (b : block) : list block :=
  b :: flat_map subblocks (innerBlocks b).

Definition forest_blocks (blocks : list block) : list block :=
  flat_map subblocks blocks.

(** Two trees of blocks with the same numbers of inner blocks at every
    place. *)
Fixpoint same_shape (a b : block) {struct a} : bool :=
  (fix all (xs ys : list block) {struct xs} : bool :=
     match xs, ys with
     | [], [] => true
     | x :: xs', y :: ys' => same_shape x y && all xs' ys'
     | _, _ => false
     end) (innerBlocks a) (innerBlocks b).

Fixpoint same_shapes (xs ys : list block) : bool :=
  match xs, ys with
  | [], [] => true
  | x :: xs', y :: ys' => same_shape x y && same_shapes xs' ys'
  | _, _ => false
  end.

Definition updated_ids (es : list effect) : list string :=
  omap (λ e, match e with UpdateBlockAttributes id _ => Some id | _ => None end) es.

Definition is_notice (e : effect) : bool :=
  match e with UpdateBlockAttributes _ _ => false | _ => true end.

(** The block has a registered type. *)
Definition registered (getBlockType : string → option block_type) (b : block)
    : Prop :=
  is_Some (getBlockType (name b)).

(** A registry with one type, and blocks for it. *)
Definition paragraph : block_type :=
  {| title := "Paragraph";
     type_attributes :=
       [ ("content", {| role := JStr "content"; default_value := JStr "" |});
         ("align", {| role := JUndefined; default_value := JUndefined |});
         ("dropCap", {| role := JUndefined; default_value := JBool false |}) ] |}.

Definition sample_types (name : string) : option block_type :=
  if bool_decide (name = "core/paragraph") then Some paragraph else None.

Definition centered : block :=
  Block "s1" "core/paragraph"
    (<["content" := JStr "hi"]> (<["align" := JStr "center"]> ∅)) [].

Definition plain : block := Block "t1" "core/paragraph" ∅ [].

Definition other : block := Block "t2" "core/paragraph" ∅ [].

(** The style attributes of [centered]. *)
Definition centered_styles : gmap string jsval :=
  <["dropCap" := JBool false]> (<["align" := JStr "center"]> ∅).

(** The block [centered] with another id, other content and an inner
    block. *)
Definition centered_elsewhere : block :=
  Block "s9" "core/paragraph"
    (<["content" := JStr "bye"]> (<["align" := JStr "center"]> ∅)) [plain].

(** A type that declares an attribute named [__proto__], and a block of
    it that has the attribute. *)
Definition proto_type : block_type :=
  {| title := "Proto";
     type_attributes :=
       [ ("__proto__", {| role := JUndefined; default_value := JNull |});
         ("align", {| role := JUndefined; default_value := JUndefined |}) ] |}.

Definition proto_types (name : string) : option block_type :=
  if bool_decide (name = "core/proto") then Some proto_type else None.

Definition proto_block : block :=
  Block "p1" "core/proto"
    (<["__proto__" := JStr "x"]> (<["align" := JStr "left"]> ∅)) [].

Definition unknown_block : block := Block "s2" "core/missing" ∅ [].

Definition freeform : block := Block "f1" "core/freeform" ∅ [].

(** A parser that knows one serialized paragraph and reads everything else
    as one freeform block. *)
Definition sample_parse (text : string) (skip : bool) : completion (list block) :=
  if bool_decide (text = "<!-- wp:paragraph /-->") then Normal [centered]
  else Normal [freeform].

Definition is_failure_notice (e : effect) : bool :=
  match e with
  | CreateErrorNotice _ | CreateWarningNotice _ => true
  | _ => false
  end.

(** The clipboard holds nothing the callback accepts as blocks. *)
Definition nothing_to_paste (parse : string → bool → completion (list block))
    (from : clipboard) : Prop :=
  match from with
  | ReadText html => html = "" ∨ looksLikeBlocks parse html = false
  | _ => True
  end.

End PasteStyles.

(** * useMultiSelection (src/unnamed/part_000) *)

Module MultiSelection.

(** [initialPosition]: undefined, null, or a caret position. *)
Inductive position :=
| PositionUndefined
| PositionNull
| PositionAt (n : Z).

(** What the selector of lines 12-30 reads from the store. *)
Record selection := {
  isMultiSelecting : bool;
  multiSelectedBlockClientIds : list string;
  hasMultiSelection : bool;
  selectedBlockClientId : option string;
  initialPosition : position;
  isFullSelection : bool
}.

(** Lines 47-73, the effect: whether it reaches the call of
    [removeAllRanges] on line 72. *)
Definition removes_all_ranges (s : selection) : bool :=
  match initialPosition s with
  | PositionUndefined | PositionNull => false
  | PositionAt _ =>
      if negb (hasMultiSelection s) || isMultiSelecting s then false
      else if (List.length (multiSelectedBlockClientIds s) <? 2)%nat then false
      else if negb (isFullSelection s) then false
      else true
  end.

End MultiSelection.

(** ** Settings and helpers of the properties *)

(** The pattern string is cut and compiled without a warning. *)
Definition compiles (pattern : zval) : bool :=
  match compile (strval pattern) with Ok _ => true | _ => false end.

(** [array( 'shortcodes' => array( 'gallery' ) )] *)
Definition gallery : gmap string zval :=
  {[ "shortcodes" := ZArr [(KInt 0, ZStr "gallery")] ]}.

(** A delimited pattern for bracketed text, given as shortcodes_regexp. *)
Definition bracketed : gmap string zval :=
  {[ "shortcodes_regexp" := ZStr "/\[[^\]]*\]/" ]}.

(** An astral pattern that names the code points above U+FFFF directly. *)
Definition astral_by_code_point : gmap string zval :=
  {[ "astral_regexp" := ZStr "/[\x{10000}-\x{10FFFF}]/u" ]}.

(** The pattern of line 64 for "gallery" between delimiters, given as
    shortcodes_regexp. *)
Definition gallery_delimited : gmap string zval :=
  {[ "shortcodes_regexp" := ZStr "/\[\/?(?:gallery)[^\]]*?\]/" ]}.

(** The pattern of a call and, for a replacement, the text put in. *)
Definition call_shape (c : preg_call) : zval * option string :=
  match c with
  | CallReplace pattern replacement _ => (pattern, Some replacement)
  | CallMatchAll pattern _ => (pattern, None)
  end.

(** The shape of lines 80-83. *)
Definition shortcodes_step (settings : gmap string zval)
    : list (zval * option string) :=
  if empty_at settings "shortcodes_regexp" then []
  else [(idx settings "shortcodes_regexp", Some LF)].

(** The settings a word count reads (lines 63, 75-97 and 108). *)
Definition words_keys : list string :=
  [ "html_regexp"; "html_comment_regexp"; "shortcodes"; "shortcodes_regexp";
    "space_regexp"; "html_entity_regexp"; "connector_regexp"; "remove_regexp";
    "words_regexp" ].

(** The settings a character count of the given type reads (lines 63,
    75-86, 101-104 and 108). *)
Definition characters_keys (type : string) : list string :=
  [ "html_regexp"; "html_comment_regexp"; "shortcodes"; "shortcodes_regexp";
    "space_regexp"; "html_entity_regexp"; "astral_regexp";
    type +:+ "_regexp" ].

(** The text after the whitespace a text starts with. *)
Fixpoint drop_spaces (s : list N) : list N :=
  match s with
  | c :: t => if is_space_c c then drop_spaces t else s
  | [] => []
  end.

(** The places of a text where a byte that is not whitespace is followed by
    whitespace. *)
Fixpoint boundaries (s : list N) : nat :=
  match s with
  | x :: t =>
      (match t with
       | y :: _ => if negb (is_space_c x) && is_space_c y then 1 else 0
       | [] => 0
       end + boundaries t)%nat
  | [] => 0%nat
  end.

Definition is_letter (c : N) : bool := is_upper c || is_lower c.

(** ASCII letters, the space and the control characters: the bytes at which
    none of the default passes of a word count can start a match. *)
Definition inert (c : N) : bool := (c <=? 32)%N || is_letter c.

(** The compiled default [words_regexp]. *)
Definition words_re : re :=
  RSeq (RSet false [INotSpace])
    (RSeq (RRep QPlus true (RSet false [ISpace])) REps).

Definition bytewise : modifiers := {| caseless := false; utf := false |}.

(** What the words pattern matches at the head of a text: a byte that is
    not whitespace and the whole run of whitespace after it. *)
Definition word_end (s : list N) : option (list N) :=
  match s with
  | x :: y :: t =>
      if negb (is_space_c x) && is_space_c y then Some (drop_spaces t)
      else None
  | _ => None
  end.

(** A word of ASCII letters. *)
Definition letters (w : string) : Prop :=
  w ≠ "" ∧ Forall (λ c, is_letter c = true) (bytes_of w).

(** The calls of a word count under the default settings with no
    shortcodes pattern, given the subject each call is made on: the six
    replacements of lines 75-97 and the count of line 108. *)
Definition default_words_calls
    (html comment space entity connector remove count : string)
    : list preg_call :=
  [ CallReplace (idx defaults "html_regexp") LF html;
    CallReplace (idx defaults "html_comment_regexp") "" comment;
    CallReplace (idx defaults "space_regexp") " " space;
    CallReplace (idx defaults "html_entity_regexp") "" entity;
    CallReplace (idx defaults "connector_regexp") " " connector;
    CallReplace (idx defaults "remove_regexp") "" remove;
    CallMatchAll (idx defaults "words_regexp") count ].

(** * Properties *)

(** Runs of the function on given texts are settled by evaluation. *)
Ltac evaluate := repeat split; vm_compute; reflexivity.

(** ** The type argument *)

Lemma sanitize_type_words : sanitize_type words = words.
Proof. reflexivity. Qed.

Lemma sanitize_type_characters :
  sanitize_type characters_excluding_spaces = characters_excluding_spaces
  ∧ sanitize_type characters_including_spaces = characters_including_spaces.
Proof. split; reflexivity. Qed.

Lemma sanitize_type_other (type : zval) :
  type ≠ characters_excluding_spaces →
  type ≠ characters_including_spaces →
  sanitize_type type = words.
Proof.
  intros Hex Hin. unfold sanitize_type.
  destruct type as [| b | i | s | a]; try reflexivity.
  unfold strict_eq_str.
  repeat case_bool_decide; subst; try reflexivity;
    first [ by destruct Hex | by destruct Hin ].
Qed.

(** (C1) Whatever the engine, the text and the settings: a type that is
    neither of the two character-count strings gives the run, and so the
    count, that the type 'words' gives. *)
Theorem unrecognized_type_counts_words `{Preg} (text : string) (type : zval)
    (settings : gmap string zval) :
  type ≠ characters_excluding_spaces →
  type ≠ characters_including_spaces →
  gutenberg_word_count text type settings
  = gutenberg_word_count text words settings.
Proof.
  intros Hex Hin. unfold gutenberg_word_count.
  rewrite (sanitize_type_other type Hex Hin), sanitize_type_words.
  reflexivity.
Qed.

Lemma unrecognized_type_witness :
  ZStr "sentences" ≠ characters_excluding_spaces
  ∧ ZStr "sentences" ≠ characters_including_spaces
  ∧ gutenberg_word_count "hello world" (ZStr "sentences") ∅
    = gutenberg_word_count "hello world" words ∅.
Proof.
  split; [discriminate |]. split; [discriminate |].
  apply (unrecognized_type_counts_words "hello world" (ZStr "sentences") ∅);
    discriminate.
Defined.

(** ** The early return *)

(** (C2) On the empty text the count is 0 and the engine is never called,
    whatever the type and the settings. *)
Theorem empty_text_short_circuits `{Preg} (type : zval)
    (settings : gmap string zval) :
  result (gutenberg_word_count "" type settings) = 0%Z
  ∧ calls (gutenberg_word_count "" type settings) = [].
Proof. split; reflexivity. Qed.

(** (C10) The guard is PHP's conversion to bool, so the text "0" also
    returns 0 before any engine call, whatever the type and the settings. *)
Theorem zero_text_short_circuits `{Preg} (type : zval)
    (settings : gmap string zval) :
  result (gutenberg_word_count "0" type settings) = 0%Z
  ∧ calls (gutenberg_word_count "0" type settings) = [].
Proof. split; reflexivity. Qed.

(** The two texts of the guard are the only ones that return early. *)
Lemma early_return_only_on_falsy `{Preg} (text : string) (type : zval)
    (settings : gmap string zval) :
  text ≠ "" → text ≠ "0" →
  calls (gutenberg_word_count text type settings) ≠ [].
Proof.
  intros H0 H1. unfold gutenberg_word_count, to_bool.
  repeat case_bool_decide; try contradiction. simpl.
  unfold normalize, calls, mbind, php_bind; simpl. discriminate.
Qed.

(** ** Resolving the settings *)

Lemma defaults_no_shortcodes :
  defaults !! "shortcodes" = None ∧ defaults !! "shortcodes_regexp" = None.
Proof. evaluate. Qed.

(** A setting of the caller overrides the default of that name and no
    other. *)
Lemma wp_parse_args_lookup (settings : gmap string zval) (k : string) :
  wp_parse_args settings defaults !! k
  = match settings !! k with
    | Some v => Some v
    | None => defaults !! k
    end.
Proof.
  unfold wp_parse_args. rewrite lookup_union.
  destruct (settings !! k), (defaults !! k); reflexivity.
Qed.

Lemma resolve_settings_array (settings : gmap string zval)
    (shortcodes : list (zkey * zval)) :
  settings !! "shortcodes" = Some (ZArr shortcodes) →
  resolve_settings settings
  = <["shortcodes_regexp" := ZStr (shortcodes_pattern shortcodes)]>
      (wp_parse_args settings defaults).
Proof.
  intros Hs. unfold resolve_settings, add_shortcodes_regexp, isset, idx.
  rewrite wp_parse_args_lookup, Hs. reflexivity.
Qed.

Lemma resolve_settings_no_array (settings : gmap string zval) :
  is_array (idx settings "shortcodes") = false →
  resolve_settings settings = wp_parse_args settings defaults.
Proof.
  unfold resolve_settings, add_shortcodes_regexp, isset, idx.
  rewrite wp_parse_args_lookup. intros Hs.
  destruct (settings !! "shortcodes") as [v |] eqn:E.
  - destruct v; simpl in *; try reflexivity. discriminate.
  - rewrite (proj1 defaults_no_shortcodes). reflexivity.
Qed.

(** (C9, as the code has it) A non-empty shortcodes array makes the
    function build the shortcodes pattern from it, over whatever
    shortcodes_regexp the caller gave.  Without a shortcodes array the
    caller's own shortcodes_regexp is the pattern, and the replacement step
    is skipped exactly when that setting is empty in PHP's sense. *)
Theorem shortcodes_regexp_resolution `{Preg} (settings : gmap string zval) :
  (∀ shortcodes, shortcodes ≠ [] →
     settings !! "shortcodes" = Some (ZArr shortcodes) →
     resolve_settings settings !! "shortcodes_regexp"
     = Some (ZStr (shortcodes_pattern shortcodes)))
  ∧ (is_array (idx settings "shortcodes") = false →
     resolve_settings settings !! "shortcodes_regexp"
     = settings !! "shortcodes_regexp"
     ∧ ∀ text,
         remove_shortcodes (resolve_settings settings) text
         = if empty_at settings "shortcodes_regexp" then mret text
           else replace (idx settings "shortcodes_regexp") LF text).
Proof.
  split.
  - intros shortcodes _ Hs.
    rewrite (resolve_settings_array _ _ Hs). apply lookup_insert_eq.
  - intros Hs. rewrite (resolve_settings_no_array _ Hs).
    assert (Hk : wp_parse_args settings defaults !! "shortcodes_regexp"
                 = settings !! "shortcodes_regexp").
    { rewrite wp_parse_args_lookup, (proj2 defaults_no_shortcodes).
      destruct (settings !! "shortcodes_regexp"); reflexivity. }
    split; [exact Hk |].
    intros text. unfold remove_shortcodes, empty_at, idx. rewrite Hk.
    destruct (to_bool (default ZNull (settings !! "shortcodes_regexp")));
      reflexivity.
Qed.

Lemma shortcodes_regexp_resolution_witness :
  resolve_settings gallery !! "shortcodes_regexp"
  = Some (ZStr "\[\/?(?:gallery)[^\]]*?\]")
  ∧ resolve_settings bracketed !! "shortcodes_regexp"
    = Some (ZStr "/\[[^\]]*\]/")
  ∧ remove_shortcodes (resolve_settings (∅ : gmap string zval)) (Some "a[b]c")
    = mret (Some "a[b]c").
Proof.
  split; [| split].
  - apply (proj1 (shortcodes_regexp_resolution gallery)
             [(KInt 0, ZStr "gallery")]); [discriminate | reflexivity].
  - apply (proj2 (shortcodes_regexp_resolution bracketed)). reflexivity.
  - assert (Hno : is_array (idx (∅ : gmap string zval) "shortcodes") = false)
      by reflexivity.
    apply (proj2 (proj2 (shortcodes_regexp_resolution ∅) Hno) (Some "a[b]c")).
Defined.

(** (C9, as stated) fails: with no shortcodes setting at all, a
    shortcodes_regexp given by the caller is the shortcodes pattern of the
    run, the replacement step runs with it, and the count changes. *)
Lemma caller_shortcodes_regexp_is_used :
  bracketed !! "shortcodes" = None
  ∧ resolve_settings bracketed !! "shortcodes_regexp"
    = Some (ZStr "/\[[^\]]*\]/")
  ∧ remove_shortcodes (resolve_settings bracketed) (Some "before[gallery]after")
    = (Some ("before" +:+ LF +:+ "after"),
       [CallReplace (ZStr "/\[[^\]]*\]/") LF "before[gallery]after"])
  ∧ result (gutenberg_word_count "before[gallery]after" words bracketed) = 2%Z
  ∧ result (gutenberg_word_count "before[gallery]after" words ∅) = 1%Z.
Proof. evaluate. Qed.

(** ** Which patterns compile *)

(** Nine of the ten defaults compile. *)
Lemma defaults_compile :
  Forall (λ k, compiles (idx defaults k) = true)
    [ "html_regexp"; "html_comment_regexp"; "space_regexp";
      "html_entity_regexp"; "connector_regexp"; "remove_regexp";
      "words_regexp"; "characters_excluding_spaces_regexp";
      "characters_including_spaces_regexp" ].
Proof. repeat constructor. Qed.

(** The tenth names surrogate code points under [u], which PCRE refuses. *)
Lemma astral_regexp_rejected :
  compile (strval (idx defaults "astral_regexp")) = Warn DisallowedCodePoint.
Proof. evaluate. Qed.

(** The pattern of line 64 starts with a backslash, where PHP looks for the
    delimiter: it is refused whatever the shortcode names are. *)
Lemma shortcodes_pattern_rejected (shortcodes : list (zkey * zval)) :
  compile (shortcodes_pattern shortcodes) = Warn BadDelimiter.
Proof. reflexivity. Qed.

Lemma astral_pass_fails (replacement subject : string) :
  pcre_replace (idx defaults "astral_regexp") replacement subject = None.
Proof. reflexivity. Qed.

Lemma shortcodes_pass_fails (shortcodes : list (zkey * zval))
    (replacement subject : string) :
  pcre_replace (ZStr (shortcodes_pattern shortcodes)) replacement subject = None.
Proof. reflexivity. Qed.

(** ** Counts under the default settings *)

(** (C3) On "hello world" with no overrides the word count is 2.  The two
    character counts come out as 0, not as 10 and 11: the astral pass
    fails on its pattern, the text becomes null, and the counting pattern
    runs on the empty string. *)
Theorem hello_world_counts :
  result (gutenberg_word_count "hello world" words ∅) = 2%Z
  ∧ result (gutenberg_word_count "hello world" characters_excluding_spaces ∅) = 0%Z
  ∧ result (gutenberg_word_count "hello world" characters_including_spaces ∅) = 0%Z
  ∧ last (calls (gutenberg_word_count "hello world" characters_excluding_spaces ∅))
    = Some (CallMatchAll (ZStr "/\S/") "").
Proof. evaluate. Qed.

(** With an astral pattern that compiles, the same run counts 10 and 11. *)
Lemma hello_world_counts_with_astral_by_code_point :
  result (gutenberg_word_count "hello world" characters_excluding_spaces
            astral_by_code_point) = 10%Z
  ∧ result (gutenberg_word_count "hello world" characters_including_spaces
              astral_by_code_point) = 11%Z.
Proof. evaluate. Qed.

(** (C4) The whole run of the function on the two texts.  On
    "hello<br>world" the html pass is called with a newline as replacement
    and the pass after it sees a newline where the tag was: the count is 2.
    On "hello<!-- x -->world" the html pass leaves the comment, the comment
    pass is called with the empty replacement and the pass after it sees
    the two words fused: the count is 1. *)
Theorem tags_separate_comments_fuse :
  gutenberg_word_count "hello<br>world" words ∅
  = (2%Z,
     default_words_calls
       ("hello<br>world" +:+ LF)
       ("hello" +:+ LF +:+ "world" +:+ LF)
       ("hello" +:+ LF +:+ "world" +:+ LF)
       ("hello" +:+ LF +:+ "world" +:+ LF)
       ("hello" +:+ LF +:+ "world" +:+ LF)
       ("hello" +:+ LF +:+ "world" +:+ LF)
       ("hello" +:+ LF +:+ "world" +:+ LF))
  ∧ gutenberg_word_count "hello<!-- x -->world" words ∅
    = (1%Z,
       default_words_calls
         ("hello<!-- x -->world" +:+ LF)
         ("hello<!-- x -->world" +:+ LF)
         ("helloworld" +:+ LF)
         ("helloworld" +:+ LF)
         ("helloworld" +:+ LF)
         ("helloworld" +:+ LF)
         ("helloworld" +:+ LF)).
Proof. evaluate. Qed.

(** (C5) The whole run of the function on the two texts.  On
    "well--done" the connector pass, called with a space as replacement,
    turns the double hyphen into a space: the count is 2.  On "well-done"
    the connector pass changes nothing and the remove pass, whose first
    band 0021-0040 holds the hyphen U+002D, deletes the hyphen: the count
    is made on "welldone" and is 1. *)
Theorem double_hyphen_splits_single_hyphen_is_removed :
  gutenberg_word_count "well--done" words ∅
  = (2%Z,
     default_words_calls
       ("well--done" +:+ LF) ("well--done" +:+ LF) ("well--done" +:+ LF)
       ("well--done" +:+ LF) ("well--done" +:+ LF)
       ("well done" +:+ LF)
       ("well done" +:+ LF))
  ∧ gutenberg_word_count "well-done" words ∅
    = (1%Z,
       default_words_calls
         ("well-done" +:+ LF) ("well-done" +:+ LF) ("well-done" +:+ LF)
         ("well-done" +:+ LF) ("well-done" +:+ LF)
         ("well-done" +:+ LF)
         ("welldone" +:+ LF))
  ∧ (∃ items m,
       compile (strval (idx defaults "remove_regexp"))
       = Ok (RSeq (RSet false (IRange 33 64 :: items)) REps, m))
  ∧ between 33 64 (chr "-") = true.
Proof.
  split; [evaluate |]. split; [evaluate |].
  split; [eexists _, _; vm_compute; reflexivity | reflexivity].
Qed.


(** (C6) The entity pass of the character counts does turn "&amp;" into
    one "a", but the count of "a&amp;b" comes out as 0, not 3: the astral
    pass that follows fails on its pattern (the defect of C3). *)
Theorem entity_becomes_a_but_count_is_zero :
  preg_replace (idx defaults "html_entity_regexp") "a" ("a&amp;b" +:+ LF)
  = Some ("aab" +:+ LF)
  ∧ result (gutenberg_word_count "a&amp;b" characters_including_spaces ∅) = 0%Z
  ∧ result (gutenberg_word_count "a&amp;b" characters_excluding_spaces ∅) = 0%Z.
Proof. evaluate. Qed.

(** With an astral pattern that compiles, the entity counts as one. *)
Lemma entity_counts_with_astral_by_code_point :
  result (gutenberg_word_count "a&amp;b" characters_including_spaces
            astral_by_code_point) = 3%Z.
Proof. evaluate. Qed.

(** (C7, as stated) fails: "123" and "x--y" are single runs of non-space
    characters with no trailing whitespace, and they count as 0 words and
    as 2 words.  The remove pass deletes the digits and the connector pass
    puts a space for the double hyphen. *)
Lemma single_runs_not_counted_once :
  gutenberg_word_count "123" words ∅
  = (0%Z,
     default_words_calls
       ("123" +:+ LF) ("123" +:+ LF) ("123" +:+ LF) ("123" +:+ LF)
       ("123" +:+ LF) ("123" +:+ LF) LF)
  ∧ gutenberg_word_count "x--y" words ∅
    = (2%Z,
       default_words_calls
         ("x--y" +:+ LF) ("x--y" +:+ LF) ("x--y" +:+ LF) ("x--y" +:+ LF)
         ("x--y" +:+ LF) ("x y" +:+ LF) ("x y" +:+ LF)).
Proof. evaluate. Qed.

(** (C8) With shortcodes = ["gallery"] the count of
    "before[gallery id=1]after" comes out as 0, not 2: the pattern built
    from the names has no delimiters, the replacement fails and leaves the
    text null. *)
Theorem gallery_shortcode_count_is_zero :
  result (gutenberg_word_count "before[gallery id=1]after" words gallery) = 0%Z
  ∧ idx (resolve_settings gallery) "shortcodes_regexp"
    = ZStr "\[\/?(?:gallery)[^\]]*?\]"
  ∧ compile "\[\/?(?:gallery)[^\]]*?\]" = Warn BadDelimiter
  ∧ remove_shortcodes (resolve_settings gallery)
      (Some ("before[gallery id=1]after" +:+ LF))
    = (None, [CallReplace (ZStr "\[\/?(?:gallery)[^\]]*?\]") LF
                ("before[gallery id=1]after" +:+ LF)]).
Proof. evaluate. Qed.

(** Between delimiters the pattern does what the comment of line 80 says. *)
Lemma gallery_delimited_counts :
  result (gutenberg_word_count "before[gallery id=1]after" words gallery_delimited)
  = 2%Z
  ∧ remove_shortcodes (resolve_settings gallery_delimited)
      (Some ("before[gallery id=1]after" +:+ LF))
    = (Some ("before" +:+ LF +:+ "after" +:+ LF),
       [CallReplace (ZStr "/\[\/?(?:gallery)[^\]]*?\]/") LF
          ("before[gallery id=1]after" +:+ LF)]).
Proof. evaluate. Qed.

(** ** How far the two failing patterns reach *)

Lemma sanitize_type_cases (type : zval) :
  sanitize_type type = words
  ∨ sanitize_type type = characters_excluding_spaces
  ∨ sanitize_type type = characters_including_spaces.
Proof.
  unfold sanitize_type.
  destruct type as [| b | i | s | a]; try (left; reflexivity).
  unfold strict_eq_str. repeat case_bool_decide; subst; simpl; auto.
Qed.

(** Under the default settings both character counts are 0 on every
    text. *)
Lemma character_counts_are_zero (text : string) (type : zval) :
  type = characters_excluding_spaces ∨ type = characters_including_spaces →
  result (gutenberg_word_count text type ∅) = 0%Z.
Proof.
  intros [-> | ->]; unfold gutenberg_word_count;
    destruct (to_bool (ZStr text)); vm_compute; reflexivity.
Qed.

(** With a shortcodes array in the settings, and the defaults otherwise,
    every count of every text is 0. *)
Lemma shortcodes_array_zeroes_count (text : string) (type : zval)
    (shortcodes : list (zkey * zval)) :
  result (gutenberg_word_count text type {[ "shortcodes" := ZArr shortcodes ]})
  = 0%Z.
Proof.
  unfold gutenberg_word_count.
  destruct (to_bool (ZStr text)); [| reflexivity].
  destruct (sanitize_type_cases type) as [-> | [-> | ->]];
    vm_compute; reflexivity.
Qed.

(** ** The engine on small inputs *)

Example replace_empty_matches :
  preg_replace (ZStr "/a*/") "x" "baac" = Some "xbxxcx".
Proof. evaluate. Qed.

Example replace_lazy_and_greedy :
  preg_replace (ZStr "/a+?/") "x" "aaa" = Some "xxx"
  ∧ preg_replace (ZStr "/a+/") "x" "aaa" = Some "x".
Proof. evaluate. Qed.

Example replace_first_alternative :
  preg_replace (ZStr "/a|ab/") "x" "ab" = Some "xb".
Proof. evaluate. Qed.

Example replace_caseless_class :
  preg_replace (ZStr "/[a-z]+/i") "x" "AbC1" = Some "x1"
  ∧ preg_replace (ZStr "/[^a]/i") "x" "AbC1" = Some "Axxx".
Proof. evaluate. Qed.

(** The em dash U+2014 (bytes E2 80 94) is a connector. *)
Example em_dash_splits :
  result (gutenberg_word_count
            ("well" +:+ string_of [226; 128; 148]%N +:+ "done") words ∅) = 2%Z.
Proof. evaluate. Qed.

(** A subject that is not UTF-8 makes a pass under [u] fail. *)
Example bad_utf8_subject :
  preg_replace (idx defaults "connector_regexp") " " (string_of [200]%N) = None.
Proof. evaluate. Qed.

Lemma utf8_round_trip_samples :
  Forall (λ c, utf8_decode (utf8_encode1 c) = Some [c])
    [0; 65; 127; 128; 173; 2047; 2048; 8212; 55295; 57344; 65535; 65536; 1114111]%N.
Proof. repeat constructor. Qed.

(** ** The passes of a run, for every engine *)

Section Shape.
Context `{Preg}.
Variables (text : string) (settings : gmap string zval).
Hypothesis text_true : to_bool (ZStr text) = true.

Let resolved := resolve_settings settings.

(** The first pass sees the text with the newline appended. *)
Lemma first_call_sees_appended_newline (type : zval) :
  head (calls (gutenberg_word_count text type settings))
  = Some (CallReplace (idx resolved "html_regexp") LF (text +:+ LF)).
Proof.
  unfold gutenberg_word_count. rewrite text_true. reflexivity.
Qed.

(** A word count puts a newline for tags and shortcodes, nothing for
    comments, entities and removed characters, a space for spaces and
    connectors. *)
Lemma words_run_shape :
  map call_shape (calls (gutenberg_word_count text words settings))
  = ([ (idx resolved "html_regexp", Some LF);
       (idx resolved "html_comment_regexp", Some "") ]
     ++ shortcodes_step resolved
     ++ [ (idx resolved "space_regexp", Some " ");
          (idx resolved "html_entity_regexp", Some "");
          (idx resolved "connector_regexp", Some " ");
          (idx resolved "remove_regexp", Some "");
          (idx resolved "words_regexp", None) ])%list.
Proof.
  unfold gutenberg_word_count. rewrite text_true, sanitize_type_words.
  unfold normalize, remove_shortcodes, shortcodes_step, resolved.
  destruct (empty_at (resolve_settings settings) "shortcodes_regexp");
    cbn; destruct (preg_match_all _ _); reflexivity.
Qed.

(** A character count puts the letter a for entities and astral pairs. *)
Lemma characters_run_shape (type : string) :
  type = "characters_excluding_spaces" ∨ type = "characters_including_spaces" →
  map call_shape (calls (gutenberg_word_count text (ZStr type) settings))
  = ([ (idx resolved "html_regexp", Some LF);
       (idx resolved "html_comment_regexp", Some "") ]
     ++ shortcodes_step resolved
     ++ [ (idx resolved "space_regexp", Some " ");
          (idx resolved "html_entity_regexp", Some "a");
          (idx resolved "astral_regexp", Some "a");
          (idx resolved (type +:+ "_regexp"), None) ])%list.
Proof.
  intros [-> | ->]; unfold gutenberg_word_count; rewrite text_true;
    unfold normalize, remove_shortcodes, shortcodes_step, resolved;
    destruct (empty_at (resolve_settings settings) "shortcodes_regexp");
    cbn; destruct (preg_match_all _ _); reflexivity.
Qed.
End Shape.


(** ** Which settings a run reads *)

Lemma resolve_settings_insert_other (settings : gmap string zval)
    (k k' : string) (v : zval) :
  k ≠ "shortcodes" → k' ≠ k →
  resolve_settings (<[k:=v]> settings) !! k' = resolve_settings settings !! k'.
Proof.
  intros Hk Hk'. unfold resolve_settings, wp_parse_args.
  rewrite <- insert_union_l.
  generalize (settings ∪ defaults). intros m.
  unfold add_shortcodes_regexp, isset, idx.
  rewrite lookup_insert_ne by done.
  destruct (m !! "shortcodes") as [[| b | i | s | a] |]; simpl;
    try (rewrite lookup_insert_ne by done; reflexivity).
  destruct (decide (k' = "shortcodes_regexp")) as [-> | Hne].
  - rewrite !lookup_insert_eq. reflexivity.
  - rewrite !lookup_insert_ne by done. reflexivity.
Qed.

Lemma idx_resolve_settings_insert_other (settings : gmap string zval)
    (k k' : string) (v : zval) :
  k ≠ "shortcodes" → k ≠ k' →
  idx (resolve_settings (<[k:=v]> settings)) k'
  = idx (resolve_settings settings) k'.
Proof.
  intros Hk Hk'. unfold idx.
  rewrite resolve_settings_insert_other by done. reflexivity.
Qed.

Ltac unchanged k' :=
  rewrite !(idx_resolve_settings_insert_other _ _ k') by done.

(** A count of words is the same whatever the caller puts at a key
    outside [words_keys]: the astral pattern, the two character patterns and
    every unknown key are never read. *)
Theorem word_count_reads_only_words_keys `{Preg} (text : string)
    (type : zval) (settings : gmap string zval) (k : string) (v : zval) :
  type ≠ characters_excluding_spaces →
  type ≠ characters_including_spaces →
  k ∉ words_keys →
  gutenberg_word_count text type (<[k:=v]> settings)
  = gutenberg_word_count text type settings.
Proof.
  intros Hex Hin Hk. unfold words_keys in Hk.
  repeat (apply not_elem_of_cons in Hk as [? Hk]).
  unfold gutenberg_word_count.
  rewrite (sanitize_type_other type Hex Hin).
  unfold normalize, remove_shortcodes, empty_at.
  change (strict_eq_str "words" words) with true. cbv iota.
  change (strval words +:+ "_regexp") with "words_regexp".
  unchanged "html_regexp". unchanged "html_comment_regexp".
  unchanged "shortcodes_regexp". unchanged "space_regexp".
  unchanged "html_entity_regexp". unchanged "connector_regexp".
  unchanged "remove_regexp". unchanged "words_regexp".
  reflexivity.
Qed.

Lemma word_count_reads_only_words_keys_witness :
  ZStr "sentences" ≠ characters_excluding_spaces
  ∧ ZStr "sentences" ≠ characters_including_spaces
  ∧ ("astral_regexp" ∉ words_keys)
  ∧ gutenberg_word_count "hello world" (ZStr "sentences")
      (<["astral_regexp" := ZNull]> ∅)
    = gutenberg_word_count "hello world" (ZStr "sentences") ∅.
Proof.
  assert (Hk : "astral_regexp" ∉ words_keys).
  { unfold words_keys. repeat (apply not_elem_of_cons; split; [discriminate |]).
    apply not_elem_of_nil. }
  split; [discriminate |]. split; [discriminate |]. split; [exact Hk |].
  apply (word_count_reads_only_words_keys "hello world" (ZStr "sentences") ∅
           "astral_regexp" ZNull); [discriminate | discriminate | exact Hk].
Defined.

(** A count of characters is the same whatever the caller puts at a key
    outside [characters_keys]: the connector, remove and words patterns, the
    pattern of the other character count and every unknown key are never
    read. *)
Theorem character_count_reads_only_characters_keys `{Preg} (text : string)
    (type : string) (settings : gmap string zval) (k : string) (v : zval) :
  type = "characters_excluding_spaces" ∨ type = "characters_including_spaces" →
  k ∉ characters_keys type →
  gutenberg_word_count text (ZStr type) (<[k:=v]> settings)
  = gutenberg_word_count text (ZStr type) settings.
Proof.
  intros Ht Hk. unfold characters_keys in Hk.
  repeat (apply not_elem_of_cons in Hk as [? Hk]).
  unfold gutenberg_word_count, normalize, remove_shortcodes, empty_at.
  assert (Hs : sanitize_type (ZStr type) = ZStr type)
    by (destruct Ht as [-> | ->]; reflexivity).
  assert (Hw : strict_eq_str "words" (ZStr type) = false)
    by (destruct Ht as [-> | ->]; reflexivity).
  rewrite Hs, Hw. simpl strval.
  unchanged "html_regexp". unchanged "html_comment_regexp".
  unchanged "shortcodes_regexp". unchanged "space_regexp".
  unchanged "html_entity_regexp". unchanged "astral_regexp".
  unchanged (type +:+ "_regexp").
  reflexivity.
Qed.

Lemma character_count_reads_only_characters_keys_witness :
  ("remove_regexp" ∉ characters_keys "characters_excluding_spaces")
  ∧ gutenberg_word_count "hello world" characters_excluding_spaces
      (<["remove_regexp" := ZNull]> ∅)
    = gutenberg_word_count "hello world" characters_excluding_spaces ∅.
Proof.
  assert (Hk : "remove_regexp" ∉ characters_keys "characters_excluding_spaces").
  { unfold characters_keys.
    repeat (apply not_elem_of_cons; split; [discriminate |]).
    apply not_elem_of_nil. }
  split; [exact Hk |].
  apply (character_count_reads_only_characters_keys "hello world"
           "characters_excluding_spaces" ∅ "remove_regexp" ZNull);
    [left; reflexivity | exact Hk].
Defined.

(** ** Merging the settings *)

(** Settings that only repeat defaults give the run of no settings. *)
Theorem repeated_defaults_change_nothing `{Preg} (text : string) (type : zval)
    (settings : gmap string zval) :
  settings ⊆ defaults →
  gutenberg_word_count text type settings = gutenberg_word_count text type ∅.
Proof.
  intros Hsub. unfold gutenberg_word_count, resolve_settings, wp_parse_args.
  rewrite (map_subseteq_union _ _ Hsub), (left_id_L ∅ (∪)). reflexivity.
Qed.

Lemma repeated_defaults_change_nothing_witness :
  (({[ "words_regexp" := ZStr "/\S\s+/" ]} : gmap string zval) ⊆ defaults)
  ∧ gutenberg_word_count "hello world" words {[ "words_regexp" := ZStr "/\S\s+/" ]}
    = gutenberg_word_count "hello world" words ∅.
Proof.
  assert (Hsub : ({[ "words_regexp" := ZStr "/\S\s+/" ]} : gmap string zval)
                 ⊆ defaults).
  { apply map_singleton_subseteq_l. reflexivity. }
  split; [exact Hsub |].
  apply (repeated_defaults_change_nothing "hello world" words _ Hsub).
Defined.

(** Resolving resolved settings changes nothing: the defaults are already
    merged in and the shortcodes pattern is rebuilt from the same array. *)
Theorem resolve_settings_idempotent (settings : gmap string zval) :
  resolve_settings (resolve_settings settings) = resolve_settings settings.
Proof.
  unfold resolve_settings, wp_parse_args.
  assert (Hm : (settings ∪ defaults) ∪ defaults = settings ∪ defaults).
  { rewrite <- (assoc_L (∪)), (idemp_L (∪)). reflexivity. }
  revert Hm. generalize (settings ∪ defaults). intros m Hm.
  unfold add_shortcodes_regexp at 2. unfold isset, idx.
  destruct (m !! "shortcodes") as [[| b | i | s | a] |] eqn:E; simpl;
    try (unfold add_shortcodes_regexp, isset, idx; rewrite Hm, E; reflexivity).
  unfold add_shortcodes_regexp, isset, idx.
  rewrite <- insert_union_l, Hm.
  rewrite lookup_insert_ne by done. rewrite E. simpl.
  apply insert_insert_eq.
Qed.

(** ** What the default words pattern counts *)

Lemma set_has_space (c : N) : set_has bytewise [ISpace] c = is_space_c c.
Proof.
  unfold set_has, item_has, is_space. simpl. destruct (is_space_c c); reflexivity.
Qed.

Lemma set_has_not_space (c : N) :
  set_has bytewise [INotSpace] c = negb (is_space_c c).
Proof.
  unfold set_has, item_has, is_space. simpl. destruct (is_space_c c); reflexivity.
Qed.

Lemma drop_spaces_length (s : list N) :
  (length (drop_spaces s) ≤ length s)%nat.
Proof.
  induction s as [| c t IH]; simpl; [lia |].
  destruct (is_space_c c); simpl; lia.
Qed.

(** The greedy run of whitespace is tried first. *)
Lemma iterate_spaces (step : list N → list (list N)) (fuel : nat) (t : list N) :
  (∀ s, step s = match s with
                 | z :: t' => if is_space_c z then [t'] else []
                 | [] => []
                 end) →
  (length t < fuel)%nat →
  ∃ rest, iterate step true fuel t = drop_spaces t :: rest.
Proof.
  intros Hstep. revert t. induction fuel as [| n IH]; intros t Hlt; [lia |].
  cbn [iterate]. rewrite Hstep.
  destruct t as [| z t]; [exists []; reflexivity |].
  cbn [drop_spaces]. destruct (is_space_c z).
  - simpl in Hlt. destruct (IH t ltac:(lia)) as [rest Hrest].
    cbn [flat_map].
    replace (length t <? length (z :: t))%nat with true
      by (symmetry; apply Nat.ltb_lt; simpl; lia).
    rewrite Hrest. simpl. eexists. reflexivity.
  - exists []. reflexivity.
Qed.

Lemma match_here_words (s : list N) :
  match_here bytewise words_re false s = word_end s.
Proof.
  destruct s as [| x [| y t]]; [reflexivity | |].
  - unfold match_here, words_re. cbn [rmatch].
    rewrite set_has_not_space. destruct (is_space_c x); reflexivity.
  - unfold match_here, words_re, word_end. cbn [rmatch].
    rewrite set_has_not_space.
    destruct (is_space_c x); [reflexivity |]. simpl xorb. cbn iota.
    cbn [flat_map]. rewrite app_nil_r, set_has_space.
    destruct (is_space_c y); [| reflexivity].
    cbn [xorb flat_map negb andb]. rewrite app_nil_r.
    match goal with
    | |- context [iterate ?step true ?f t] =>
        destruct (iterate_spaces step f t) as [rest Hrest];
        [ intros [| z t']; [reflexivity |];
          rewrite set_has_space; destruct (is_space_c z); reflexivity
        | simpl; lia
        | rewrite Hrest ]
    end.
    reflexivity.
Qed.

Lemma boundaries_space (c : N) (t : list N) :
  is_space_c c = true → boundaries (c :: t) = boundaries t.
Proof.
  intros Hc. simpl. rewrite Hc. destruct t; reflexivity.
Qed.

Lemma boundaries_drop_spaces (s : list N) :
  boundaries (drop_spaces s) = boundaries s.
Proof.
  induction s as [| c t IH]; [reflexivity |].
  cbn [drop_spaces]. destruct (is_space_c c) eqn:Hc; [| reflexivity].
  rewrite IH. symmetry. apply boundaries_space. exact Hc.
Qed.

Lemma boundaries_cons2 (x y : N) (t : list N) :
  boundaries (x :: y :: t)
  = ((if negb (is_space_c x) && is_space_c y then 1 else 0)
     + boundaries (y :: t))%nat.
Proof. reflexivity. Qed.

Lemma match_loop_words (fuel : nat) (s : list N) :
  (length s < fuel)%nat →
  length (match_loop bytewise words_re fuel false s) = boundaries s.
Proof.
  revert s. induction fuel as [| n IH]; intros s Hlt; [lia |].
  cbn [match_loop]. rewrite match_here_words.
  destruct s as [| x [| y t]]; [reflexivity | |].
  - simpl. destruct n; reflexivity.
  - unfold word_end. rewrite boundaries_cons2.
    destruct (negb (is_space_c x) && is_space_c y) eqn:Hxy.
    + pose proof (drop_spaces_length t) as Hd. simpl in Hlt.
      replace (length (drop_spaces t) <? length (x :: y :: t))%nat with true
        by (symmetry; apply Nat.ltb_lt; simpl; lia).
      cbn [length]. rewrite IH by lia.
      apply andb_true_iff in Hxy as [_ Hy].
      rewrite boundaries_drop_spaces, (boundaries_space y t Hy).
      reflexivity.
    + rewrite IH by (simpl in *; lia). reflexivity.
Qed.

Lemma string_of_bytes_of (s : string) : string_of (bytes_of s) = s.
Proof.
  unfold string_of, bytes_of. rewrite map_map.
  rewrite (map_ext _ id), map_id by (intros a; apply ascii_N_embedding).
  apply string_of_list_ascii_of_string.
Qed.

Lemma bytes_of_app (a b : string) :
  bytes_of (a +:+ b) = (bytes_of a ++ bytes_of b)%list.
Proof.
  unfold bytes_of. induction a as [| c a IH]; [reflexivity |].
  simpl. f_equal. exact IH.
Qed.


Lemma pcre_match_all_words (subject : string) :
  pcre_match_all (ZStr "/\S\s+/") subject
  = Some (units_string bytewise
            <$> match_loop bytewise words_re
                  (2 * length (bytes_of subject) + 2) false (bytes_of subject)).
Proof. reflexivity. Qed.

(** The default words pattern finds one match for each place of the
    subject where a byte that is not whitespace is followed by whitespace. *)
Theorem words_regexp_counts_boundaries (subject : string) :
  ∃ full,
    preg_match_all (idx defaults "words_regexp") subject = Some full
    ∧ length full = boundaries (bytes_of subject).
Proof.
  eexists. split.
  - change (idx defaults "words_regexp") with (ZStr "/\S\s+/").
    apply pcre_match_all_words.
  - rewrite length_fmap. apply match_loop_words. lia.
Qed.

(** *** Inert text *)

Lemma utf8_decode_ascii (bs : list N) :
  Forall (λ c, (c <? 128)%N = true) bs → utf8_decode bs = Some bs.
Proof.
  induction 1 as [| c t Hc _ IH]; [reflexivity |].
  cbn [utf8_decode]. rewrite Hc, IH. reflexivity.
Qed.

Lemma utf8_encode_ascii (bs : list N) :
  Forall (λ c, (c <? 128)%N = true) bs → utf8_encode bs = bs.
Proof.
  induction 1 as [| c t Hc _ IH]; [reflexivity |].
  unfold utf8_encode in *. cbn [flat_map]. unfold utf8_encode1 at 1.
  rewrite Hc, IH. reflexivity.
Qed.

Lemma is_upper_spec (c : N) : is_upper c = (65 <=? c)%N && (c <=? 90)%N.
Proof. reflexivity. Qed.

Lemma is_lower_spec (c : N) : is_lower c = (97 <=? c)%N && (c <=? 122)%N.
Proof. reflexivity. Qed.

Lemma inert_cases (c : N) :
  inert c = true ↔ (c ≤ 32 ∨ (65 ≤ c ∧ c ≤ 90) ∨ (97 ≤ c ∧ c ≤ 122))%N.
Proof.
  unfold inert, is_letter. rewrite is_upper_spec, is_lower_spec.
  rewrite !orb_true_iff, !andb_true_iff, !N.leb_le. tauto.
Qed.

Lemma inert_ascii (c : N) : inert c = true → (c <? 128)%N = true.
Proof. rewrite inert_cases, N.ltb_lt. lia. Qed.

Lemma replace_loop_no_match (m : modifiers) (r : re) (rep : list N)
    (P : N → Prop) :
  (∀ x t, P x → match_here m r false (x :: t) = None) →
  match_here m r false [] = None →
  ∀ fuel s, Forall P s → replace_loop m r rep fuel false s = s.
Proof.
  intros Hcons Hnil fuel. induction fuel as [| n IH]; intros s Hs;
    [reflexivity |].
  cbn [replace_loop]. destruct Hs as [| x t Hx Ht].
  - rewrite Hnil. reflexivity.
  - rewrite (Hcons x t Hx), (IH t Ht). reflexivity.
Qed.

(** A pass whose pattern matches nowhere in an inert subject returns the
    subject. *)
Lemma pcre_replace_inert (p : string) (r : re) (m : modifiers)
    (replacement subject : string) :
  compile p = Ok (r, m) →
  plain_replacement replacement = true →
  is_Some (subject_units m replacement) →
  (∀ x t, inert x = true → match_here m r false (x :: t) = None) →
  match_here m r false [] = None →
  Forall (λ c, inert c = true) (bytes_of subject) →
  pcre_replace (ZStr p) replacement subject = Some subject.
Proof.
  intros Hc Hplain [rep Hrep] Hcons Hnil Hs.
  unfold pcre_replace. cbn [pattern_string strval mbind option_bind].
  rewrite Hc, Hplain.
  assert (Hascii : Forall (λ c, (c <? 128)%N = true) (bytes_of subject)).
  { eapply Forall_impl; [exact Hs | apply inert_ascii]. }
  assert (Hunits : subject_units m subject = Some (bytes_of subject)).
  { unfold subject_units. destruct (utf m); [| reflexivity].
    apply utf8_decode_ascii. exact Hascii. }
  rewrite Hunits, Hrep. cbn [mbind option_bind].
  rewrite (replace_loop_no_match m r rep (λ c, inert c = true) Hcons Hnil _ _ Hs).
  unfold units_string. destruct (utf m).
  - rewrite (utf8_encode_ascii _ Hascii), string_of_bytes_of. reflexivity.
  - rewrite string_of_bytes_of. reflexivity.
Qed.

Ltac decide_bytes :=
  repeat match goal with
         | |- context [(?a =? ?b)%N] => destruct (N.eqb_spec a b); try lia
         | |- context [(?a <=? ?b)%N] => destruct (N.leb_spec a b); try lia
         end.



Lemma other_case_inert (x : N) : inert x = true → inert (other_case x) = true.
Proof.
  intros Hx. unfold other_case. rewrite is_upper_spec, is_lower_spec.
  destruct ((65 <=? x)%N && (x <=? 90)%N) eqn:U;
    [| destruct ((97 <=? x)%N && (x <=? 122)%N) eqn:L; [| exact Hx]].
  - apply andb_true_iff in U as [U1 U2]. apply N.leb_le in U1, U2.
    apply inert_cases. lia.
  - apply andb_true_iff in L as [L1 L2]. apply N.leb_le in L1, L2.
    apply inert_cases. lia.
Qed.

Lemma chr_eq_inert (m : modifiers) (c x : N) :
  inert x = true → inert c = false → chr_eq m c x = false.
Proof.
  intros Hx Hc. unfold chr_eq.
  destruct (N.eqb_spec x c) as [-> | _]; [congruence |].
  destruct (N.eqb_spec (other_case x) c) as [<- | _].
  - rewrite (other_case_inert x Hx) in Hc. discriminate.
  - rewrite andb_false_r. reflexivity.
Qed.

Lemma rmatch_chr_fails (m : modifiers) (c x : N) (t : list N) :
  chr_eq m c x = false → rmatch m (RChr c) (x :: t) = [].
Proof. intros H. cbn [rmatch]. rewrite H. reflexivity. Qed.

Lemma rmatch_set_fails (m : modifiers) (neg : bool) (items : list citem)
    (x : N) (t : list N) :
  xorb neg (set_has m items x) = false → rmatch m (RSet neg items) (x :: t) = [].
Proof. intros H. cbn [rmatch]. rewrite H. reflexivity. Qed.

Lemma rmatch_seq_fails (m : modifiers) (r1 r2 : re) (s : list N) :
  rmatch m r1 s = [] → rmatch m (RSeq r1 r2) s = [].
Proof. intros H. cbn [rmatch]. rewrite H. reflexivity. Qed.

Lemma rmatch_alt_fails (m : modifiers) (r1 r2 : re) (s : list N) :
  rmatch m r1 s = [] → rmatch m r2 s = [] → rmatch m (RAlt r1 r2) s = [].
Proof. intros H1 H2. cbn [rmatch]. rewrite H1, H2. reflexivity. Qed.

Lemma match_here_fails (m : modifiers) (r : re) (s : list N) :
  rmatch m r s = [] → match_here m r false s = None.
Proof. intros H. unfold match_here. rewrite H. reflexivity. Qed.

Ltac starts_elsewhere :=
  apply match_here_fails;
  repeat first
    [ apply rmatch_seq_fails
    | apply rmatch_alt_fails
    | apply rmatch_chr_fails; apply chr_eq_inert; [assumption | reflexivity] ].

Ltac inert_pass :=
  eapply pcre_replace_inert;
  [ vm_compute; reflexivity
  | reflexivity
  | eexists; vm_compute; reflexivity
  | intros x t Hx; starts_elsewhere
  | reflexivity
  | assumption ].

Section InertPasses.
Variable subject : string.
Hypothesis subject_inert : Forall (λ c, inert c = true) (bytes_of subject).

Lemma html_pass_inert :
  pcre_replace (idx defaults "html_regexp") LF subject = Some subject.
Proof. inert_pass. Qed.

Lemma html_comment_pass_inert :
  pcre_replace (idx defaults "html_comment_regexp") "" subject = Some subject.
Proof. inert_pass. Qed.

Lemma space_pass_inert :
  pcre_replace (idx defaults "space_regexp") " " subject = Some subject.
Proof. inert_pass. Qed.

Lemma html_entity_pass_inert :
  pcre_replace (idx defaults "html_entity_regexp") "" subject = Some subject.
Proof. inert_pass. Qed.

Lemma connector_pass_inert :
  pcre_replace (idx defaults "connector_regexp") " " subject = Some subject.
Proof. inert_pass. Qed.

Lemma remove_pass_inert :
  pcre_replace (idx defaults "remove_regexp") "" subject = Some subject.
Proof.
  inert_pass.
  apply rmatch_set_fails. apply inert_cases in Hx.
  unfold set_has. cbn [existsb item_has caseless andb orb xorb].
  unfold between. decide_bytes; reflexivity.
Qed.
End InertPasses.


Lemma resolve_settings_empty : resolve_settings ∅ = defaults.
Proof. reflexivity. Qed.

Lemma result_bind {A B} (m : php A) (k : A → php B) :
  result (m ≫= k) = result (k (result m)).
Proof. reflexivity. Qed.

Lemma inert_not_falsy (text : string) :
  text ≠ "" → Forall (λ c, inert c = true) (bytes_of text) →
  to_bool (ZStr text) = true.
Proof.
  intros Hne Hin. unfold to_bool.
  repeat case_bool_decide; subst; try contradiction; [| reflexivity].
  inversion Hin as [| c t Hc _]. vm_compute in Hc. discriminate.
Qed.

Lemma result_replace (pattern : zval) (replacement : string)
    (text : option string) :
  result (replace pattern replacement text)
  = pcre_replace pattern replacement (subject_of text).
Proof. reflexivity. Qed.

Lemma subject_of_some (s : string) : subject_of (Some s) = s.
Proof. reflexivity. Qed.

Lemma result_match_all (pattern : zval) (text : option string) :
  result (match_all pattern text) = pcre_match_all pattern (subject_of text).
Proof. reflexivity. Qed.

Lemma word_count_of_inert (text : string) :
  text ≠ "" →
  Forall (λ c, inert c = true) (bytes_of text) →
  result (gutenberg_word_count text words ∅)
  = Z.of_nat (boundaries (bytes_of text ++ [10%N])%list).
Proof.
  intros Hne Hin.
  assert (Hin' : Forall (λ c, inert c = true) (bytes_of (text +:+ LF))).
  { rewrite bytes_of_app. apply Forall_app. split; [exact Hin |].
    repeat constructor. }
  unfold gutenberg_word_count.
  rewrite (inert_not_falsy text Hne Hin), resolve_settings_empty.
  cbn [negb]. unfold normalize, remove_shortcodes.
  change (empty_at defaults "shortcodes_regexp") with true. cbn [negb].
  change (strict_eq_str "words" (sanitize_type words)) with true. cbv iota.
  change (strval (sanitize_type words) +:+ "_regexp") with "words_regexp".
  rewrite !result_bind, result_match_all, !result_replace.
  change (result (mret ?x)) with x.
  rewrite subject_of_some, (html_pass_inert _ Hin').
  rewrite subject_of_some, (html_comment_pass_inert _ Hin').
  rewrite subject_of_some, (space_pass_inert _ Hin').
  rewrite subject_of_some, (html_entity_pass_inert _ Hin').
  rewrite subject_of_some, (connector_pass_inert _ Hin').
  rewrite subject_of_some, (remove_pass_inert _ Hin'), subject_of_some.
  change (idx defaults "words_regexp") with (ZStr "/\S\s+/").
  rewrite pcre_match_all_words. unfold result. cbn [fst mret php_ret].
  rewrite length_fmap, match_loop_words by lia.
  rewrite bytes_of_app. reflexivity.
Qed.

(** The word count of an inert text under the default settings is the
    number of places, in the text with the newline appended, where a byte
    that is not whitespace is followed by whitespace. *)
Theorem inert_text_word_count (text : string) :
  text ≠ "" →
  Forall (λ c, inert c = true) (bytes_of text) →
  result (gutenberg_word_count text words ∅)
  = Z.of_nat (boundaries (bytes_of text ++ [10%N])%list).
Proof. apply word_count_of_inert. Qed.

Lemma boundaries_word (w : list N) (y : N) (t : list N) :
  w ≠ [] → Forall (λ c, is_space_c c = false) w → is_space_c y = true →
  boundaries (w ++ y :: t)%list = S (boundaries t).
Proof.
  intros Hne Hw Hy. induction Hw as [| x w' Hx Hw' IH]; [contradiction |].
  destruct w' as [| x' w''].
  - cbn [app]. rewrite boundaries_cons2, Hx, Hy, (boundaries_space y t Hy).
    reflexivity.
  - change ((x :: x' :: w'') ++ y :: t)%list with (x :: x' :: (w'' ++ y :: t))%list.
    rewrite boundaries_cons2.
    inversion Hw' as [| ? ? Hx' _]; subst. rewrite Hx', andb_false_r.
    apply IH. discriminate.
Qed.

Lemma letter_not_space (c : N) : is_letter c = true → is_space_c c = false.
Proof.
  unfold is_letter, is_space_c, between. rewrite is_upper_spec, is_lower_spec.
  rewrite !orb_true_iff, !andb_true_iff, !N.leb_le. intros H.
  decide_bytes; reflexivity.
Qed.

Lemma letter_inert (c : N) : is_letter c = true → inert c = true.
Proof. unfold inert. intros ->. apply orb_true_r. Qed.

Lemma join_cons (glue w : string) (ws : list string) :
  ws ≠ [] → join glue (w :: ws) = w +:+ glue +:+ join glue ws.
Proof. destruct ws; [contradiction | reflexivity]. Qed.

Lemma bytes_of_nil (w : string) : bytes_of w = [] → w = "".
Proof. destruct w; [reflexivity | discriminate]. Qed.

Lemma boundaries_join (ws : list string) :
  Forall letters ws →
  boundaries (bytes_of (join " " ws) ++ [10%N])%list = length ws.
Proof.
  induction 1 as [| w ws [Hne Hw] Hws IH]; [reflexivity |].
  assert (Hw' : Forall (λ c, is_space_c c = false) (bytes_of w)).
  { eapply Forall_impl; [exact Hw | apply letter_not_space]. }
  assert (Hb : bytes_of w ≠ []) by (intros E; apply Hne, bytes_of_nil, E).
  destruct ws as [| w2 ws'].
  - cbn [join length]. rewrite (boundaries_word _ 10%N []) by done. reflexivity.
  - rewrite join_cons by discriminate.
    rewrite !bytes_of_app, <- !(assoc_L (++)).
    change (bytes_of " " ++ ?l)%list with (32%N :: l).
    rewrite (boundaries_word _ 32%N) by done.
    cbn [length]. f_equal. exact IH.
Qed.

Lemma join_inert (ws : list string) :
  Forall letters ws → Forall (λ c, inert c = true) (bytes_of (join " " ws)).
Proof.
  induction 1 as [| w ws [Hne Hw] Hws IH]; [constructor |].
  assert (Hi : Forall (λ c, inert c = true) (bytes_of w)).
  { eapply Forall_impl; [exact Hw | apply letter_inert]. }
  destruct ws as [| w2 ws']; [exact Hi |].
  rewrite join_cons by discriminate. rewrite !bytes_of_app.
  apply Forall_app. split; [exact Hi |].
  apply Forall_app. split; [repeat constructor | exact IH].
Qed.

(** Words of ASCII letters separated by single spaces are counted one by
    one. *)
Theorem spaced_letter_words_count (ws : list string) :
  ws ≠ [] → Forall letters ws →
  result (gutenberg_word_count (join " " ws) words ∅) = Z.of_nat (length ws).
Proof.
  intros Hne Hws.
  rewrite word_count_of_inert.
  - rewrite (boundaries_join ws Hws). reflexivity.
  - destruct Hws as [| w ws [Hw _] _]; [contradiction |].
    destruct ws; [exact Hw |]. rewrite join_cons by discriminate.
    destruct w; [contradiction | discriminate].
  - apply join_inert. exact Hws.
Qed.

Lemma bind_replace_unchanged {B} (pattern : zval) (replacement s : string)
    (k : option string → php B) :
  pcre_replace pattern replacement s = Some s →
  (replace pattern replacement (Some s) ≫= k)
  = ((k (Some s)).1, CallReplace pattern replacement s :: (k (Some s)).2).
Proof.
  intros H.
  assert (H' : preg_replace pattern replacement (subject_of (Some s)) = Some s)
    by exact H.
  unfold replace, mbind, php_bind. rewrite H'. reflexivity.
Qed.

Lemma replace_unchanged (pattern : zval) (replacement s : string) :
  pcre_replace pattern replacement s = Some s →
  replace pattern replacement (Some s)
  = (Some s, [CallReplace pattern replacement s]).
Proof.
  intros H.
  assert (H' : preg_replace pattern replacement (subject_of (Some s)) = Some s)
    by exact H.
  unfold replace. rewrite H'. reflexivity.
Qed.

Lemma bind_ret_pair {A B} (a : A) (k : A → php B) :
  (mret a ≫= k) = ((k a).1, (k a).2).
Proof. reflexivity. Qed.

(** The passes of a word count leave an inert text as it is. *)
Lemma normalize_inert (text : string) :
  Forall (λ c, inert c = true) (bytes_of (text +:+ LF)) →
  normalize defaults words text
  = (Some (text +:+ LF),
     [ CallReplace (idx defaults "html_regexp") LF (text +:+ LF);
       CallReplace (idx defaults "html_comment_regexp") "" (text +:+ LF);
       CallReplace (idx defaults "space_regexp") " " (text +:+ LF);
       CallReplace (idx defaults "html_entity_regexp") "" (text +:+ LF);
       CallReplace (idx defaults "connector_regexp") " " (text +:+ LF);
       CallReplace (idx defaults "remove_regexp") "" (text +:+ LF) ]).
Proof.
  intros Hin. unfold normalize, remove_shortcodes.
  change (empty_at defaults "shortcodes_regexp") with true. cbn [negb].
  change (strict_eq_str "words" words) with true. cbv iota.
  rewrite (bind_replace_unchanged _ _ _ _ (html_pass_inert _ Hin)).
  rewrite (bind_replace_unchanged _ _ _ _ (html_comment_pass_inert _ Hin)).
  rewrite bind_ret_pair. cbv beta.
  rewrite (bind_replace_unchanged _ _ _ _ (space_pass_inert _ Hin)).
  rewrite (bind_replace_unchanged _ _ _ _ (html_entity_pass_inert _ Hin)).
  rewrite (bind_replace_unchanged _ _ _ _ (connector_pass_inert _ Hin)).
  rewrite (replace_unchanged _ _ _ (remove_pass_inert _ Hin)).
  reflexivity.
Qed.

Lemma boundaries_letters (text : string) :
  letters text → boundaries (bytes_of text ++ [10%N])%list = 1%nat.
Proof.
  intros [Hne Hl].
  rewrite (boundaries_word _ 10%N []); [reflexivity | | | reflexivity].
  - intros E. apply Hne, bytes_of_nil, E.
  - eapply Forall_impl; [exact Hl | apply letter_not_space].
Qed.

(** (C7, as the code has it) A text that is one run of ASCII letters is
    counted as one word.  The newline is appended before the first pass:
    every call of the run, from the html pass to the count, is made on the
    text with the newline at its end, and the counting pattern finds the
    last letter followed by that newline. *)
Theorem letter_run_counts_once (text : string) :
  letters text →
  gutenberg_word_count text words ∅
  = (1%Z,
     default_words_calls
       (text +:+ LF) (text +:+ LF) (text +:+ LF) (text +:+ LF)
       (text +:+ LF) (text +:+ LF) (text +:+ LF)).
Proof.
  intros Hl. pose proof Hl as [Hne Hletters].
  assert (Hin : Forall (λ c, inert c = true) (bytes_of text)).
  { eapply Forall_impl; [exact Hletters | apply letter_inert]. }
  assert (Hin' : Forall (λ c, inert c = true) (bytes_of (text +:+ LF))).
  { rewrite bytes_of_app. apply Forall_app. split; [exact Hin |].
    repeat constructor. }
  unfold gutenberg_word_count.
  rewrite (inert_not_falsy text Hne Hin), resolve_settings_empty.
  cbn [negb].
  change (strval (sanitize_type words) +:+ "_regexp") with "words_regexp".
  change (sanitize_type words) with words.
  rewrite (normalize_inert text Hin').
  assert (Hm : preg_match_all (idx defaults "words_regexp")
                 (subject_of (Some (text +:+ LF)))
               = pcre_match_all (ZStr "/\S\s+/") (text +:+ LF))
    by reflexivity.
  unfold mbind, php_bind, match_all. cbn [fst snd].
  rewrite Hm, pcre_match_all_words. cbn [fst snd mret php_ret app].
  rewrite length_fmap, match_loop_words by lia.
  rewrite bytes_of_app.
  change (bytes_of LF) with [10%N].
  rewrite (boundaries_letters text Hl). reflexivity.
Qed.

Lemma letter_run_counts_once_witness :
  letters "lonelyword"
  ∧ gutenberg_word_count "lonelyword" words ∅
    = (1%Z,
       default_words_calls
         ("lonelyword" +:+ LF) ("lonelyword" +:+ LF) ("lonelyword" +:+ LF)
         ("lonelyword" +:+ LF) ("lonelyword" +:+ LF) ("lonelyword" +:+ LF)
         ("lonelyword" +:+ LF)).
Proof.
  assert (H : letters "lonelyword").
  { split; [discriminate | repeat constructor]. }
  split; [exact H |].
  apply (letter_run_counts_once "lonelyword" H).
Defined.

Lemma inert_text_word_count_witness :
  "a b" ≠ ""
  ∧ Forall (λ c, inert c = true) (bytes_of "a b")
  ∧ result (gutenberg_word_count "a b" words ∅)
    = Z.of_nat (boundaries (bytes_of "a b" ++ [10%N])%list).
Proof.
  assert (Hin : Forall (λ c, inert c = true) (bytes_of "a b"))
    by (repeat constructor).
  split; [discriminate |]. split; [exact Hin |].
  apply (inert_text_word_count "a b"); [discriminate | exact Hin].
Defined.

Lemma spaced_letter_words_count_witness :
  ["hello"; "world"] ≠ []
  ∧ Forall letters ["hello"; "world"]
  ∧ result (gutenberg_word_count (join " " ["hello"; "world"]) words ∅)
    = Z.of_nat (length ["hello"; "world"]).
Proof.
  assert (Hws : Forall letters ["hello"; "world"]).
  { repeat constructor; discriminate. }
  split; [discriminate |]. split; [exact Hws |].
  apply (spaced_letter_words_count ["hello"; "world"]);
    [discriminate | exact Hws].
Defined.

(** * Properties of usePasteStyles *)

Module PasteStylesProperties.
Import PasteStyles.

Lemma block_forall_ind (P : block → Prop) :
  (∀ b, Forall P (innerBlocks b) → P b) → ∀ b, P b.
Proof.
  intros Hstep. fix IH 1. intros [id n a inner]. apply Hstep. simpl.
  induction inner as [| b inner IHinner]; constructor; [apply IH | exact IHinner].
Qed.

Section Styles.
Variable getBlockType : string → option block_type.

Abbreviation style_attributes := (getStyleAttributes getBlockType).

Lemma assign_lookup (key a : string) (v : jsval) (object : gmap string jsval) :
  assign key v object !! a
  = if bool_decide (key = a ∧ key ≠ "__proto__") then Some v else object !! a.
Proof.
  unfold assign. destruct (decide (key = "__proto__")) as [Hp | Hp].
  - rewrite bool_decide_eq_true_2 by exact Hp.
    rewrite bool_decide_eq_false_2 by tauto. reflexivity.
  - rewrite (bool_decide_eq_false_2 _ Hp).
    destruct (decide (key = a)) as [<- | Hne].
    + rewrite bool_decide_eq_true_2 by tauto. apply lookup_insert_eq.
    + rewrite bool_decide_eq_false_2 by tauto. apply lookup_insert_ne, Hne.
Qed.

(** The entry of an attribute that sets it last. *)
Lemma foldl_add_style_lookup (b : block) (entries : list (string * attribute_type))
    (acc : gmap string jsval) (a : string) :
  foldl (add_style b) acc entries !! a
  = match last (filter (λ e, (e.1 = a ∧ e.1 ≠ "__proto__")
                             ∧ is_content (role e.2) = false) entries) with
    | Some e => Some (style_value b a e.2)
    | None => acc !! a
    end.
Proof.
  revert acc. induction entries as [| e entries IH]; intros acc; [reflexivity |].
  cbn [foldl]. rewrite IH. rewrite filter_cons.
  destruct (decide ((e.1 = a ∧ e.1 ≠ "__proto__")
                    ∧ is_content (role e.2) = false)) as [[[Ha Hp] Hc] | Hn].
  - destruct (filter _ entries) as [| e' l] eqn:E.
    + simpl. unfold add_style. rewrite Hc. simpl. rewrite assign_lookup.
      rewrite bool_decide_eq_true_2 by (split; assumption).
      rewrite Ha. reflexivity.
    + rewrite last_cons_cons. destruct (last (e' :: l)) eqn:L; [reflexivity |].
      apply last_None in L. discriminate.
  - destruct (last (filter _ entries)); [reflexivity |].
    unfold add_style. destruct (is_content (role e.2)) eqn:Hc; simpl; [reflexivity |].
    rewrite assign_lookup. rewrite bool_decide_eq_false_2; [reflexivity |].
    intros Hk. apply Hn. split; [exact Hk | reflexivity].
Qed.

(** The own keys of the style attributes of a block are the attributes its
    type declares with a role other than content, the name [__proto__]
    apart: no other key is set. *)
Theorem style_attributes_keys (b : block) (blockType : block_type)
    (attrs : gmap string jsval) (a : string) :
  getBlockType (name b) = Some blockType →
  style_attributes b = Normal attrs →
  is_Some (attrs !! a)
  ↔ a ≠ "__proto__"
    ∧ ∃ attributeType,
        (a, attributeType) ∈ type_attributes blockType
        ∧ is_content (role attributeType) = false.
Proof.
  intros Ht. unfold getStyleAttributes. rewrite Ht. intros [= <-].
  rewrite foldl_add_style_lookup, lookup_empty.
  destruct (last (filter _ _)) as [e |] eqn:L.
  - split; [intros _ | intros _; eexists; reflexivity].
    apply last_Some_elem_of, list_elem_of_filter in L as [[[<- Hp] Hc] Hin].
    split; [exact Hp |].
    exists e.2. split; [| exact Hc]. destruct e; exact Hin.
  - split; [intros [? [=]] |]. intros (Hp & ty & Hin & Hc).
    apply last_None in L.
    assert (Hf : (a, ty) ∈ filter (λ e : string * attribute_type,
                                     (e.1 = a ∧ e.1 ≠ "__proto__")
                                     ∧ is_content (role e.2) = false)
                                  (type_attributes blockType)).
    { apply list_elem_of_filter.
      split; [split; [split; [reflexivity | exact Hp] | exact Hc] | exact Hin]. }
    rewrite L in Hf. inversion Hf.
Qed.

Lemma unique_key_entry {B} (l : list (string * B)) (a : string) (y1 y2 : B) :
  NoDup l.*1 → (a, y1) ∈ l → (a, y2) ∈ l → y1 = y2.
Proof.
  induction l as [| [k v] l IH]; intros Hnd H1 H2; [inversion H1 |].
  apply NoDup_cons in Hnd as [Hk Hnd].
  assert (Hfresh : ∀ y, (k, y) ∈ l → False).
  { intros y Hy. apply Hk, list_elem_of_fmap. exists (k, y). split; [reflexivity | exact Hy]. }
  apply elem_of_cons in H1 as [E1 | H1]; apply elem_of_cons in H2 as [E2 | H2];
    simplify_eq; try reflexivity.
  - destruct (Hfresh _ H2).
  - destruct (Hfresh _ H1).
  - apply IH; assumption.
Qed.

(** An attribute the type declares once, with a role other than content
    and a name other than [__proto__], is set to the block's own value if
    the block has the attribute, even if that value is undefined, and to
    the declared default otherwise.  One declared with the role content,
    or named [__proto__], is not an own key of the result. *)
Theorem style_attribute_value (b : block) (blockType : block_type)
    (attrs : gmap string jsval) (a : string) (attributeType : attribute_type) :
  getBlockType (name b) = Some blockType →
  NoDup (type_attributes blockType).*1 →
  (a, attributeType) ∈ type_attributes blockType →
  style_attributes b = Normal attrs →
  attrs !! a
  = if is_content (role attributeType) || bool_decide (a = "__proto__")
    then None
    else Some (match attributes b !! a with
               | Some v => v
               | None => default_value attributeType
               end).
Proof.
  intros Ht Hnd Hin. unfold getStyleAttributes. rewrite Ht. intros [= <-].
  rewrite foldl_add_style_lookup, lookup_empty.
  destruct (last (filter _ _)) as [[a' ty'] |] eqn:L.
  - apply last_Some_elem_of, list_elem_of_filter in L as [[[Ha Hp] Hc] Hin'].
    simpl in Ha, Hp, Hc. subst a'.
    rewrite (unique_key_entry _ _ _ _ Hnd Hin Hin'), Hc.
    rewrite bool_decide_eq_false_2 by exact Hp. reflexivity.
  - destruct (is_content (role attributeType)) eqn:Hc; [reflexivity |].
    case_bool_decide as Hp; [reflexivity |]. simpl.
    apply last_None in L.
    assert (Hf : (a, attributeType)
                 ∈ filter (λ e : string * attribute_type,
                             (e.1 = a ∧ e.1 ≠ "__proto__")
                             ∧ is_content (role e.2) = false)
                          (type_attributes blockType)).
    { apply list_elem_of_filter.
      split; [split; [split; [reflexivity | exact Hp] | exact Hc] | exact Hin]. }
    rewrite L in Hf. inversion Hf.
Qed.

(** What is pasted from a block depends only on its name and on its own
    values of the attributes its type declares with a role other than
    content: not on its client id, its inner blocks, its content or its
    undeclared attributes. *)
Theorem style_attributes_depend_on_styles_only (b1 b2 : block) :
  name b1 = name b2 →
  (∀ blockType a attributeType,
     getBlockType (name b1) = Some blockType →
     (a, attributeType) ∈ type_attributes blockType →
     is_content (role attributeType) = false →
     attributes b1 !! a = attributes b2 !! a) →
  style_attributes b1 = style_attributes b2.
Proof.
  intros Hn Hsame. unfold getStyleAttributes. rewrite <- Hn.
  destruct (getBlockType (name b1)) as [blockType |] eqn:Ht; [| reflexivity].
  f_equal. apply map_eq. intros a. rewrite !foldl_add_style_lookup.
  destruct (last (filter _ _)) as [[a' ty'] |] eqn:L; [| reflexivity].
  apply last_Some_elem_of, list_elem_of_filter in L as [[[Ha Hp] Hc] Hin].
  simpl in *. subst a'. unfold style_value.
  rewrite (Hsame blockType a ty' eq_refl Hin Hc). reflexivity.
Qed.
End Styles.


Section Updates.
Variable getBlockType : string → option block_type.

Abbreviation update_pair := (updateBlockPair getBlockType).
Abbreviation update_all := (recursivelyUpdateBlockAttributes getBlockType).
Abbreviation style_of := (getStyleAttributes getBlockType).

Lemma effects_bind {A B} (m : js A) (k : A → js B) :
  effects (bind m k)
  = (effects m ++ match outcome_of m with
                  | Normal a => effects (k a)
                  | Throw => []
                  end)%list.
Proof.
  unfold effects, outcome_of, bind. destruct m as [[a |] es]; simpl;
    [reflexivity | symmetry; apply app_nil_r].
Qed.

Lemma outcome_bind {A B} (m : js A) (k : A → js B) :
  outcome_of (bind m k)
  = match outcome_of m with
    | Normal a => outcome_of (k a)
    | Throw => Throw
    end.
Proof. unfold outcome_of, bind. destruct m as [[a |] es]; reflexivity. Qed.

(** The loop body, with the recursive call of line 88 spelled out. *)
Lemma update_pair_unfold (target source : block) :
  update_pair target source
  = (let* attrs := lift (style_of source) in
     emit (UpdateBlockAttributes (clientId target) attrs) ;;
     update_all (innerBlocks target) (innerBlocks source)).
Proof. destruct target. reflexivity. Qed.

Lemma update_all_cons (t s : block) (ts ss : list block) :
  update_all (t :: ts) (s :: ss)
  = (update_pair t s ;; update_all ts ss).
Proof. reflexivity. Qed.

Lemma effects_update_pair (target source : block) :
  effects (update_pair target source)
  = match style_of source with
    | Normal attrs =>
        UpdateBlockAttributes (clientId target) attrs
        :: effects (update_all (innerBlocks target) (innerBlocks source))
    | Throw => []
    end.
Proof.
  rewrite update_pair_unfold. destruct (style_of source); reflexivity.
Qed.

Lemma outcome_update_pair (target source : block) :
  outcome_of (update_pair target source)
  = match style_of source with
    | Normal _ => outcome_of (update_all (innerBlocks target) (innerBlocks source))
    | Throw => Throw
    end.
Proof.
  rewrite update_pair_unfold. destruct (style_of source); reflexivity.
Qed.

Lemma effects_update_all_cons (t s : block) (ts ss : list block) :
  effects (update_all (t :: ts) (s :: ss))
  = (effects (update_pair t s)
     ++ match outcome_of (update_pair t s) with
        | Normal _ => effects (update_all ts ss)
        | Throw => []
        end)%list.
Proof. rewrite update_all_cons. apply effects_bind. Qed.

Lemma update_all_nil_r (ts : list block) : update_all ts [] = ret tt.
Proof. destruct ts; reflexivity. Qed.

Lemma forest_ids_cons (b : block) (bs : list block) :
  forest_ids (b :: bs) = (block_ids b ++ forest_ids bs)%list.
Proof. reflexivity. Qed.

Lemma block_ids_unfold (b : block) :
  block_ids b = clientId b :: forest_ids (innerBlocks b).
Proof. destruct b. reflexivity. Qed.

Lemma updated_ids_app (l1 l2 : list effect) :
  updated_ids (l1 ++ l2) = (updated_ids l1 ++ updated_ids l2)%list.
Proof. apply omap_app. Qed.

(** From blocks to lists of blocks. *)
Lemma forest_from_blocks :
  ∀ ts, Forall (λ t, ∀ s, updated_ids (effects (update_pair t s))
                          `sublist_of` block_ids t) ts →
  ∀ ss, updated_ids (effects (update_all ts ss)) `sublist_of` forest_ids ts.
Proof.
  induction 1 as [| t ts Ht _ IH]; intros ss; [apply sublist_nil_l |].
  destruct ss as [| s ss]; [apply sublist_nil_l |].
  rewrite effects_update_all_cons, updated_ids_app, forest_ids_cons.
  apply sublist_app; [apply Ht |].
  destruct (outcome_of _); [apply IH | apply sublist_nil_l].
Qed.

Lemma updated_ids_sublist (targetBlocks sourceBlocks : list block) :
  updated_ids (effects (update_all targetBlocks sourceBlocks))
  `sublist_of` forest_ids targetBlocks.
Proof.
  apply forest_from_blocks.
  apply Forall_forall. intros t _. clear.
  induction t as [t IH] using block_forall_ind. intros s.
  rewrite effects_update_pair, block_ids_unfold.
  destruct (style_of s); [| apply sublist_nil_l].
  simpl. apply sublist_skip.
  apply forest_from_blocks. exact IH.
Qed.

(** The client ids that are updated are client ids of the target blocks,
    in document order and without repeating a place, also when the run
    throws part way. *)
Theorem updates_follow_the_targets (targetBlocks sourceBlocks : list block) :
  updated_ids (effects (update_all targetBlocks sourceBlocks))
  `sublist_of` forest_ids targetBlocks.
Proof. apply updated_ids_sublist. Qed.

Abbreviation registered := (PasteStyles.registered getBlockType).

Lemma forest_blocks_cons (b : block) (bs : list block) :
  forest_blocks (b :: bs) = (subblocks b ++ forest_blocks bs)%list.
Proof. reflexivity. Qed.

Lemma subblocks_unfold (b : block) :
  subblocks b = b :: forest_blocks (innerBlocks b).
Proof. destruct b. reflexivity. Qed.

Lemma completes_from_blocks (ts : list block) :
  Forall (λ t, ∀ s, Forall registered (subblocks s) →
                    outcome_of (update_pair t s) = Normal tt) ts →
  ∀ ss, Forall registered (forest_blocks ss) →
        outcome_of (update_all ts ss) = Normal tt.
Proof.
  induction 1 as [| t ts Ht _ IH]; intros ss Hss; [reflexivity |].
  destruct ss as [| s ss]; [reflexivity |].
  rewrite forest_blocks_cons in Hss. apply Forall_app in Hss as [Hs Hss].
  rewrite update_all_cons, outcome_bind, (Ht s Hs). apply IH, Hss.
Qed.

Lemma completes_when_registered (targetBlocks sourceBlocks : list block) :
  Forall registered (forest_blocks sourceBlocks) →
  outcome_of (update_all targetBlocks sourceBlocks) = Normal tt.
Proof.
  apply completes_from_blocks.
  apply Forall_forall. intros t _. clear.
  induction t as [t IH] using block_forall_ind. intros s Hs.
  rewrite subblocks_unfold in Hs. apply Forall_cons in Hs as [[bt Hbt] Hinner].
  rewrite outcome_update_pair. unfold getStyleAttributes. rewrite Hbt.
  apply completes_from_blocks; assumption.
Qed.

(** If every copied block has a registered type, the run does not throw. *)
Theorem registered_sources_complete (targetBlocks sourceBlocks : list block) :
  Forall registered (forest_blocks sourceBlocks) →
  outcome_of (update_all targetBlocks sourceBlocks) = Normal tt.
Proof. apply completes_when_registered. Qed.

(** A copied block whose type is not registered makes the run throw
    before anything is updated. *)
Theorem unregistered_source_throws (t s : block) (ts ss : list block) :
  getBlockType (name s) = None →
  update_all (t :: ts) (s :: ss) = (Throw, []).
Proof.
  intros Hs. rewrite update_all_cons, update_pair_unfold.
  unfold getStyleAttributes. rewrite Hs. reflexivity.
Qed.

Lemma same_shape_unfold (a b : block) :
  same_shape a b = same_shapes (innerBlocks a) (innerBlocks b).
Proof. destruct a. reflexivity. Qed.

Lemma all_updated_from_blocks (ts : list block) :
  Forall (λ t, ∀ s, same_shape t s = true →
                    Forall registered (subblocks s) →
                    updated_ids (effects (update_pair t s)) = block_ids t) ts →
  ∀ ss, same_shapes ts ss = true →
        Forall registered (forest_blocks ss) →
        updated_ids (effects (update_all ts ss)) = forest_ids ts.
Proof.
  induction 1 as [| t ts Ht _ IH]; intros ss Hshape Hss; [reflexivity |].
  destruct ss as [| s ss]; [discriminate |].
  simpl in Hshape. apply andb_true_iff in Hshape as [Hts Hrest].
  rewrite forest_blocks_cons in Hss. apply Forall_app in Hss as [Hs Hss].
  rewrite effects_update_all_cons, updated_ids_app, forest_ids_cons.
  rewrite (Ht s Hts Hs).
  assert (Hok : outcome_of (update_pair t s) = Normal tt).
  { pose proof (completes_when_registered [t] [s]) as H.
    rewrite update_all_cons, outcome_bind in H.
    destruct (outcome_of (update_pair t s)) as [[] |]; [reflexivity |].
    discriminate H. rewrite forest_blocks_cons. apply Forall_app.
    split; [exact Hs | constructor]. }
  rewrite Hok, (IH ss Hrest Hss). reflexivity.
Qed.

(** When the copied blocks have the shape of the target blocks and
    registered types, every target block is updated, once, in document
    order. *)
Theorem same_shape_updates_every_target (targetBlocks sourceBlocks : list block) :
  same_shapes targetBlocks sourceBlocks = true →
  Forall registered (forest_blocks sourceBlocks) →
  updated_ids (effects (update_all targetBlocks sourceBlocks))
  = forest_ids targetBlocks.
Proof.
  apply all_updated_from_blocks.
  apply Forall_forall. intros t _. clear.
  induction t as [t IH] using block_forall_ind. intros s Hshape Hs.
  rewrite same_shape_unfold in Hshape.
  rewrite subblocks_unfold in Hs. apply Forall_cons in Hs as [[bt Hbt] Hinner].
  rewrite effects_update_pair, block_ids_unfold.
  unfold getStyleAttributes. rewrite Hbt. simpl. f_equal.
  apply all_updated_from_blocks; assumption.
Qed.

Lemma styles_from_blocks (ts : list block) :
  Forall (λ t, ∀ s id attrs,
            UpdateBlockAttributes id attrs ∈ effects (update_pair t s) →
            ∃ b, b ∈ subblocks s ∧ style_of b = Normal attrs) ts →
  ∀ ss id attrs,
    UpdateBlockAttributes id attrs ∈ effects (update_all ts ss) →
    ∃ b, b ∈ forest_blocks ss ∧ style_of b = Normal attrs.
Proof.
  induction 1 as [| t ts Ht _ IH]; intros ss id attrs Hin; [inversion Hin |].
  destruct ss as [| s ss]; [inversion Hin |].
  rewrite effects_update_all_cons in Hin. rewrite forest_blocks_cons.
  apply elem_of_app in Hin as [Hin | Hin].
  - destruct (Ht s id attrs Hin) as (b & Hb & Hstyle).
    exists b. split; [apply elem_of_app; left; exact Hb | exact Hstyle].
  - destruct (outcome_of (update_pair t s)); [| inversion Hin].
    destruct (IH ss id attrs Hin) as (b & Hb & Hstyle).
    exists b. split; [apply elem_of_app; right; exact Hb | exact Hstyle].
Qed.

(** Every update carries the style attributes of one of the copied
    blocks. *)
Theorem updates_carry_copied_styles (targetBlocks sourceBlocks : list block)
    (id : string) (attrs : gmap string jsval) :
  UpdateBlockAttributes id attrs
    ∈ effects (update_all targetBlocks sourceBlocks) →
  ∃ b, b ∈ forest_blocks sourceBlocks ∧ style_of b = Normal attrs.
Proof.
  revert sourceBlocks id attrs. apply styles_from_blocks.
  apply Forall_forall. intros t _. clear.
  induction t as [t IH] using block_forall_ind. intros s id attrs Hin.
  rewrite effects_update_pair in Hin. rewrite subblocks_unfold.
  destruct (style_of s) as [a |] eqn:Hs; [| inversion Hin].
  apply elem_of_cons in Hin as [Heq | Hin].
  - injection Heq as _ ->.
    exists s. split; [apply elem_of_cons; left; reflexivity | exact Hs].
  - destruct (styles_from_blocks _ IH _ _ _ Hin) as (b & Hb & Hstyle).
    exists b. split; [apply elem_of_cons; right; exact Hb | exact Hstyle].
Qed.

(** Target blocks beyond the number of copied blocks are left alone, and
    copied blocks beyond the number of target blocks are not read. *)
Theorem surplus_blocks_are_ignored (targetBlocks sourceBlocks extra : list block) :
  ((List.length sourceBlocks ≤ List.length targetBlocks)%nat →
   update_all (targetBlocks ++ extra) sourceBlocks
   = update_all targetBlocks sourceBlocks)
  ∧ ((List.length targetBlocks ≤ List.length sourceBlocks)%nat →
     update_all targetBlocks (sourceBlocks ++ extra)
     = update_all targetBlocks sourceBlocks).
Proof.
  split; revert sourceBlocks.
  - induction targetBlocks as [| t ts IH]; intros [| s ss] Hlen;
      simpl in Hlen; try lia.
    + apply update_all_nil_r.
    + rewrite update_all_nil_r. reflexivity.
    + change ((t :: ts) ++ extra)%list with (t :: (ts ++ extra))%list.
      rewrite !update_all_cons, IH by lia. reflexivity.
  - induction targetBlocks as [| t ts IH]; intros [| s ss] Hlen;
      simpl in Hlen; try lia; try reflexivity.
    change ((s :: ss) ++ extra)%list with (s :: (ss ++ extra))%list.
    rewrite !update_all_cons, IH by lia. reflexivity.
Qed.

Lemma outcome_update_pair_registered (t s : block) :
  Forall registered (subblocks s) → outcome_of (update_pair t s) = Normal tt.
Proof.
  intros Hs. pose proof (completes_when_registered [t] [s]) as H.
  rewrite update_all_cons, outcome_bind in H.
  destruct (outcome_of (update_pair t s)) as [[] |]; [reflexivity |].
  discriminate H. rewrite forest_blocks_cons. apply Forall_app.
  split; [exact Hs | constructor].
Qed.

Lemma updates_only_from_blocks (ts : list block) :
  Forall (λ t, ∀ s, Forall (λ e, is_notice e = false)
                      (effects (update_pair t s))) ts →
  ∀ ss, Forall (λ e, is_notice e = false) (effects (update_all ts ss)).
Proof.
  induction 1 as [| t ts Ht _ IH]; intros ss; [constructor |].
  destruct ss as [| s ss]; [constructor |].
  rewrite effects_update_all_cons. apply Forall_app. split; [apply Ht |].
  destruct (outcome_of _); [apply IH | constructor].
Qed.

Lemma update_all_only_updates (ts ss : list block) :
  Forall (λ e, is_notice e = false) (effects (update_all ts ss)).
Proof.
  apply updates_only_from_blocks.
  apply Forall_forall. intros t _. clear.
  induction t as [t IH] using block_forall_ind. intros s.
  rewrite effects_update_pair. destruct (style_of s); constructor;
    [reflexivity | apply updates_only_from_blocks, IH].
Qed.

(** Pasting one copied block onto many: every target block of the top
    level gets the style attributes of the copied block. *)
Lemma one_source_styles_every_target (copied : block)
    (attrs : gmap string jsval) (ts : list block) (t : block) :
  Forall registered (subblocks copied) →
  style_of copied = Normal attrs →
  t ∈ ts →
  UpdateBlockAttributes (clientId t) attrs
    ∈ effects (update_all ts (map (λ _, copied) ts)).
Proof.
  intros Hreg Hstyle. induction ts as [| t' ts IH]; intros Hin; [inversion Hin |].
  cbn [map]. rewrite effects_update_all_cons.
  rewrite (outcome_update_pair_registered t' copied Hreg).
  apply elem_of_app. apply elem_of_cons in Hin as [-> | Hin].
  - left. rewrite effects_update_pair, Hstyle. apply elem_of_cons. left. reflexivity.
  - right. apply IH, Hin.
Qed.
End Updates.


Section Paste.
Variable getBlockType : string → option block_type.
Variable parse : string → bool → completion (list block).

Abbreviation paste := (pasteStyles getBlockType parse).

(** With no clipboard, a refused read, an empty text or a text that does
    not look like blocks, the callback creates one error or warning notice
    and updates nothing. *)
Theorem failed_paste_updates_nothing (from : clipboard)
    (targetBlocks : list block) :
  nothing_to_paste parse from →
  ∃ notice,
    paste from targetBlocks = (Normal tt, [notice])
    ∧ is_failure_notice notice = true.
Proof.
  destruct from as [| | html]; simpl.
  - intros _. eexists. split; reflexivity.
  - intros _. eexists. split; reflexivity.
  - intros [-> | Hlooks].
    + eexists. split; reflexivity.
    + rewrite Hlooks, orb_true_r. eexists. split; reflexivity.
Qed.

(** A call that returns creates exactly one notice, after all updates; a
    call that throws creates none. *)
Theorem one_notice_after_the_updates (from : clipboard)
    (targetBlocks : list block) :
  match outcome_of (paste from targetBlocks) with
  | Normal _ =>
      ∃ updates notice,
        effects (paste from targetBlocks) = (updates ++ [notice])%list
        ∧ is_notice notice = true
        ∧ Forall (λ e, is_notice e = false) updates
  | Throw => Forall (λ e, is_notice e = false) (effects (paste from targetBlocks))
  end.
Proof.
  destruct from as [| | html].
  { eexists [], _. repeat split; constructor. }
  { eexists [], _. repeat split; constructor. }
  unfold pasteStyles.
  destruct (bool_decide (html = "") || negb (looksLikeBlocks parse html));
    [eexists [], _; repeat split; constructor |].
  rewrite outcome_bind, effects_bind. unfold lift at 1 2 3. simpl.
  destruct (parse html false) as [copiedBlocks |]; [| constructor].
  rewrite outcome_bind, effects_bind.
  set (run := match copiedBlocks with
              | [copied] => _
              | _ => _
              end).
  assert (Hrun : Forall (λ e, is_notice e = false) (effects run)).
  { unfold run. destruct copiedBlocks as [| c [| c' cs]];
      apply update_all_only_updates. }
  destruct (outcome_of run) as [[] |].
  - destruct targetBlocks as [| t [| t' ts]];
      (eexists; eexists; split; [reflexivity | split; [reflexivity | exact Hrun]]).
  - rewrite app_nil_r. exact Hrun.
Qed.

(** One copied block is pasted onto every target block of the top level. *)
Theorem one_copied_block_styles_every_target (html : string) (copied : block)
    (attrs : gmap string jsval) (targetBlocks : list block) (t : block) :
  html ≠ "" →
  looksLikeBlocks parse html = true →
  parse html false = Normal [copied] →
  Forall (PasteStyles.registered getBlockType) (subblocks copied) →
  getStyleAttributes getBlockType copied = Normal attrs →
  t ∈ targetBlocks →
  UpdateBlockAttributes (clientId t) attrs
    ∈ effects (paste (ReadText html) targetBlocks).
Proof.
  intros Hne Hlooks Hparse Hreg Hstyle Hin. unfold pasteStyles.
  rewrite Hlooks. rewrite bool_decide_eq_false_2 by exact Hne. simpl.
  rewrite Hparse, effects_bind. unfold lift. cbn [effects outcome_of fst snd app].
  rewrite effects_bind. apply elem_of_app. left.
  apply one_source_styles_every_target; assumption.
Qed.

(** Whatever the clipboard holds, only blocks of the target are updated,
    in document order. *)
Theorem paste_updates_only_targets (from : clipboard)
    (targetBlocks : list block) :
  updated_ids (effects (paste from targetBlocks))
  `sublist_of` forest_ids targetBlocks.
Proof.
  destruct from as [| | html]; simpl; try apply sublist_nil_l.
  destruct (bool_decide (html = "") || negb (looksLikeBlocks parse html));
    [apply sublist_nil_l |].
  rewrite effects_bind. unfold lift at 1 2. simpl.
  destruct (parse html false) as [copiedBlocks |]; [| apply sublist_nil_l].
  rewrite effects_bind, updated_ids_app.
  rewrite <- (app_nil_r (forest_ids targetBlocks)).
  apply sublist_app.
  - destruct copiedBlocks as [| c [| c' cs]]; apply updated_ids_sublist.
  - destruct (outcome_of _); [| apply sublist_nil_l].
    destruct targetBlocks as [| t [| t' ts]]; apply sublist_nil_l.
Qed.
End Paste.

(** ** Runs on a small registry *)

Lemma style_attributes_keys_witness :
  sample_types (name centered) = Some paragraph
  ∧ getStyleAttributes sample_types centered = Normal centered_styles
  ∧ (is_Some (centered_styles !! "align")
     ↔ "align" ≠ "__proto__"
       ∧ ∃ attributeType,
           ("align", attributeType) ∈ type_attributes paragraph
           ∧ is_content (role attributeType) = false).
Proof.
  assert (H1 : sample_types (name centered) = Some paragraph) by reflexivity.
  assert (H2 : getStyleAttributes sample_types centered = Normal centered_styles)
    by (vm_compute; reflexivity).
  split; [exact H1 |]. split; [exact H2 |].
  apply (style_attributes_keys sample_types centered paragraph centered_styles
           "align" H1 H2).
Defined.

(** The assignment of line 55 to the name [__proto__] leaves no own key. *)
Example proto_key_is_not_set :
  getStyleAttributes proto_types proto_block
  = Normal (<["align" := JStr "left"]> ∅).
Proof. vm_compute. reflexivity. Qed.

Lemma paragraph_keys_unique : NoDup (type_attributes paragraph).*1.
Proof. apply (bool_decide_unpack _). vm_compute. reflexivity. Defined.

Lemma style_attribute_value_witness :
  sample_types (name centered) = Some paragraph
  ∧ NoDup (type_attributes paragraph).*1
  ∧ ("dropCap", {| role := JUndefined; default_value := JBool false |})
      ∈ type_attributes paragraph
  ∧ getStyleAttributes sample_types centered = Normal centered_styles
  ∧ centered_styles !! "dropCap" = Some (JBool false).
Proof.
  assert (H1 : sample_types (name centered) = Some paragraph) by reflexivity.
  assert (H3 : ("dropCap", {| role := JUndefined; default_value := JBool false |})
               ∈ type_attributes paragraph) by (repeat constructor).
  assert (H4 : getStyleAttributes sample_types centered = Normal centered_styles)
    by (vm_compute; reflexivity).
  split; [exact H1 |]. split; [exact paragraph_keys_unique |].
  split; [exact H3 |]. split; [exact H4 |].
  apply (style_attribute_value sample_types centered paragraph centered_styles
           "dropCap" _ H1 paragraph_keys_unique H3 H4).
Defined.

Lemma style_attributes_depend_on_styles_only_witness :
  name centered = name centered_elsewhere
  ∧ getStyleAttributes sample_types centered
    = getStyleAttributes sample_types centered_elsewhere.
Proof.
  split; [reflexivity |].
  apply (style_attributes_depend_on_styles_only sample_types centered
           centered_elsewhere); [reflexivity |].
  intros blockType a attributeType Hbt Hin Hc.
  injection Hbt as <-.
  repeat (apply elem_of_cons in Hin as [Heq | Hin];
          [injection Heq as -> ->; first [discriminate Hc | reflexivity] |]).
  inversion Hin.
Defined.

Lemma registered_sources_complete_witness :
  Forall (registered sample_types) (forest_blocks [centered])
  ∧ outcome_of (recursivelyUpdateBlockAttributes sample_types [plain] [centered])
    = Normal tt.
Proof.
  assert (H : Forall (registered sample_types) (forest_blocks [centered])).
  { repeat constructor. exists paragraph. reflexivity. }
  split; [exact H |].
  apply (registered_sources_complete sample_types [plain] [centered] H).
Defined.

Lemma unregistered_source_throws_witness :
  sample_types (name unknown_block) = None
  ∧ recursivelyUpdateBlockAttributes sample_types [plain; other]
      [unknown_block; centered]
    = (Throw, []).
Proof.
  split; [reflexivity |].
  apply (unregistered_source_throws sample_types plain unknown_block
           [other] [centered]).
  reflexivity.
Defined.

Lemma same_shape_updates_every_target_witness :
  same_shapes [plain; other] [centered; centered] = true
  ∧ Forall (registered sample_types) (forest_blocks [centered; centered])
  ∧ updated_ids
      (effects (recursivelyUpdateBlockAttributes sample_types [plain; other]
                  [centered; centered]))
    = forest_ids [plain; other].
Proof.
  assert (H : Forall (registered sample_types)
                (forest_blocks [centered; centered])).
  { repeat constructor; exists paragraph; reflexivity. }
  split; [reflexivity |]. split; [exact H |].
  apply (same_shape_updates_every_target sample_types [plain; other]
           [centered; centered]); [reflexivity | exact H].
Defined.

Lemma updates_carry_copied_styles_witness :
  UpdateBlockAttributes "t1" centered_styles
    ∈ effects (recursivelyUpdateBlockAttributes sample_types [plain] [centered])
  ∧ ∃ b, b ∈ forest_blocks [centered]
         ∧ getStyleAttributes sample_types b = Normal centered_styles.
Proof.
  assert (H : UpdateBlockAttributes "t1" centered_styles
              ∈ effects (recursivelyUpdateBlockAttributes sample_types
                           [plain] [centered])).
  { vm_compute. constructor. }
  split; [exact H |].
  apply (updates_carry_copied_styles sample_types [plain] [centered] "t1"
           centered_styles H).
Defined.

Lemma surplus_blocks_are_ignored_witness :
  (List.length [centered] ≤ List.length [plain])%nat
  ∧ recursivelyUpdateBlockAttributes sample_types ([plain] ++ [other])%list
      [centered]
    = recursivelyUpdateBlockAttributes sample_types [plain] [centered].
Proof.
  assert (H : (List.length [centered] ≤ List.length [plain])%nat)
    by (apply le_n).
  split; [exact H |].
  apply (proj1 (surplus_blocks_are_ignored sample_types [plain] [centered]
                  [other]) H).
Defined.

Lemma failed_paste_updates_nothing_witness :
  nothing_to_paste sample_parse (ReadText "hello")
  ∧ ∃ notice,
      pasteStyles sample_types sample_parse (ReadText "hello") [plain]
      = (Normal tt, [notice])
      ∧ is_failure_notice notice = true.
Proof.
  assert (H : nothing_to_paste sample_parse (ReadText "hello"))
    by (right; reflexivity).
  split; [exact H |].
  apply (failed_paste_updates_nothing sample_types sample_parse
           (ReadText "hello") [plain] H).
Defined.

Lemma one_copied_block_styles_every_target_witness :
  "<!-- wp:paragraph /-->" ≠ ""
  ∧ looksLikeBlocks sample_parse "<!-- wp:paragraph /-->" = true
  ∧ sample_parse "<!-- wp:paragraph /-->" false = Normal [centered]
  ∧ Forall (registered sample_types) (subblocks centered)
  ∧ getStyleAttributes sample_types centered = Normal centered_styles
  ∧ other ∈ [plain; other]
  ∧ UpdateBlockAttributes (clientId other) centered_styles
      ∈ effects (pasteStyles sample_types sample_parse
                   (ReadText "<!-- wp:paragraph /-->") [plain; other]).
Proof.
  assert (H1 : "<!-- wp:paragraph /-->" ≠ "") by discriminate.
  assert (H2 : looksLikeBlocks sample_parse "<!-- wp:paragraph /-->" = true)
    by reflexivity.
  assert (H3 : sample_parse "<!-- wp:paragraph /-->" false = Normal [centered])
    by reflexivity.
  assert (H4 : Forall (registered sample_types) (subblocks centered)).
  { repeat constructor. exists paragraph. reflexivity. }
  assert (H5 : getStyleAttributes sample_types centered = Normal centered_styles)
    by (vm_compute; reflexivity).
  assert (H6 : other ∈ [plain; other]) by (repeat constructor).
  repeat (split; [assumption |]).
  apply (one_copied_block_styles_every_target sample_types sample_parse
           "<!-- wp:paragraph /-->" centered centered_styles [plain; other]
           other H1 H2 H3 H4 H5 H6).
Defined.

End PasteStylesProperties.

(** * Properties of useMultiSelection *)

(** The effect removes the ranges of the window selection exactly when a
    caret position is given, a multi-selection exists and is no longer being
    made, at least two blocks are in it, and it is a full selection. *)
Theorem ranges_removed_exactly_when (s : MultiSelection.selection) :
  MultiSelection.removes_all_ranges s = true
  ↔ (∃ n, MultiSelection.initialPosition s = MultiSelection.PositionAt n)
    ∧ MultiSelection.hasMultiSelection s = true
    ∧ MultiSelection.isMultiSelecting s = false
    ∧ (2 ≤ List.length (MultiSelection.multiSelectedBlockClientIds s))%nat
    ∧ MultiSelection.isFullSelection s = true.
Proof.
  unfold MultiSelection.removes_all_ranges.
  destruct s as [selecting ids has selected pos full]; simpl.
  destruct pos as [| | n].
  - split; [discriminate | intros [[n [=]] _]].
  - split; [discriminate | intros [[n [=]] _]].
  - destruct has, selecting, full; simpl;
      destruct (Nat.ltb_spec (List.length ids) 2); simpl;
      split; try discriminate;
      try (intros (_ & H1 & H2 & H3 & H4); first [discriminate | lia]);
      intros _; repeat split; first [eexists; reflexivity | lia].
Qed.

(** * Runs of gutenberg_word_count that meet the stated conditions *)

Lemma early_return_only_on_falsy_witness :
  "a" ≠ "" ∧ "a" ≠ "0"
  ∧ calls (gutenberg_word_count "a" words ∅) ≠ [].
Proof.
  split; [discriminate |]. split; [discriminate |].
  apply (early_return_only_on_falsy "a" words ∅); discriminate.
Defined.

Lemma first_call_sees_appended_newline_witness :
  to_bool (ZStr "a") = true
  ∧ head (calls (gutenberg_word_count "a" words ∅))
    = Some (CallReplace (idx (resolve_settings ∅) "html_regexp") LF ("a" +:+ LF)).
Proof.
  split; [reflexivity |].
  apply (first_call_sees_appended_newline "a" ∅ eq_refl words).
Defined.

Lemma words_run_shape_witness :
  to_bool (ZStr "a") = true
  ∧ map call_shape (calls (gutenberg_word_count "a" words gallery))
    = ([ (idx (resolve_settings gallery) "html_regexp", Some LF);
         (idx (resolve_settings gallery) "html_comment_regexp", Some "") ]
       ++ shortcodes_step (resolve_settings gallery)
       ++ [ (idx (resolve_settings gallery) "space_regexp", Some " ");
            (idx (resolve_settings gallery) "html_entity_regexp", Some "");
            (idx (resolve_settings gallery) "connector_regexp", Some " ");
            (idx (resolve_settings gallery) "remove_regexp", Some "");
            (idx (resolve_settings gallery) "words_regexp", None) ])%list.
Proof.
  split; [reflexivity |].
  apply (words_run_shape "a" gallery eq_refl).
Defined.

Lemma characters_run_shape_witness :
  to_bool (ZStr "a") = true
  ∧ ("characters_excluding_spaces" = "characters_excluding_spaces"
     ∨ "characters_excluding_spaces" = "characters_including_spaces")
  ∧ map call_shape
      (calls (gutenberg_word_count "a" (ZStr "characters_excluding_spaces") ∅))
    = ([ (idx (resolve_settings ∅) "html_regexp", Some LF);
         (idx (resolve_settings ∅) "html_comment_regexp", Some "") ]
       ++ shortcodes_step (resolve_settings ∅)
       ++ [ (idx (resolve_settings ∅) "space_regexp", Some " ");
            (idx (resolve_settings ∅) "html_entity_regexp", Some "a");
            (idx (resolve_settings ∅) "astral_regexp", Some "a");
            (idx (resolve_settings ∅)
               ("characters_excluding_spaces" +:+ "_regexp"), None) ])%list.
Proof.
  split; [reflexivity |]. split; [left; reflexivity |].
  apply (characters_run_shape "a" ∅ eq_refl "characters_excluding_spaces").
  left. reflexivity.
Defined.

Lemma character_counts_are_zero_witness :
  (characters_including_spaces = characters_excluding_spaces
   ∨ characters_including_spaces = characters_including_spaces)
  ∧ result (gutenberg_word_count "hello world" characters_including_spaces ∅)
    = 0%Z.
Proof.
  split; [right; reflexivity |].
  apply (character_counts_are_zero "hello world" characters_including_spaces).
  right. reflexivity.
Defined.
